(** * ros-pointperfect: the PointPerfect MQTT client, embedded in Rocq

    A shallow embedding of [src/point_perfect_client.py]: the NMEA sentence
    framer ([NmeaParser.parse]), the GGA decoder and the AssistNow branch
    ([handle_nmea_gga]), tile naming ([get_tile_topic]), nearest-node search
    and server migration ([select_node]), the MQTT callbacks and the body of
    the read loop ([loop_forever]); of the receiver object of
    [src/ros_publisher.py]; and of the lines of [src/main.py] that take the
    server URI apart.

    Conventions of the embedding.
    - A Python exception is a value [Raise e]; a call that returns is [Ok v].
    - [bytes]/[bytearray] are [list ascii]; [str] is [string].
    - Python [int] is [Z].  Python [float] is idealised as an exact rational
      ([Q]): rounding to binary64, overflow to infinity and NaN are outside
      the model.  [math.cos] after [math.radians] is a parameter.
    - Calls on the MQTT client object and on the receiver link are recorded
      as a list of [action]s, in program order.  Logging has no effect on the
      program state and is left out. *)

From Stdlib Require Import ZArith QArith Qround Qabs Ascii String List Bool Lia Lqa.
From stdpp Require Import base option list strings gmap.

Import ListNotations.
Local Open Scope Z_scope.

(** ** Exceptions and results *)

Inductive exn : Set :=
| ValueError
| IndexError
| KeyError
| UnboundLocalError
| UnicodeDecodeError
| AssertionError.

Inductive result (A : Type) : Type :=
| Ok (a : A)
| Raise (e : exn).

Arguments Ok {A} a.
Arguments Raise {A} e.

Definition is_ok {A} (r : result A) : bool :=
  match r with Ok _ => true | Raise _ => false end.

(** ** Bytes *)

Definition ord (c : ascii) : Z := Z.of_N (N_of_ascii c).

(** [byte in range(lo, hi + 1)] *)
Definition in_range (lo hi : ascii) (b : ascii) : bool :=
  (ord lo <=? ord b) && (ord b <=? ord hi).

Definition byte_eqb (a b : ascii) : bool := ord a =? ord b.

(** [bytearray.decode(encoding='ascii')]: every byte must be below 128. *)
Definition decode_ascii (b : list ascii) : result string :=
  if forallb (fun c => ord c <? 128) b
  then Ok (string_of_list_ascii b)
  else Raise UnicodeDecodeError.

(** Value of one hexadecimal digit, as [int(_, 16)] reads it. *)
Definition hex_digit (c : ascii) : option Z :=
  if in_range "0" "9" c then Some (ord c - 48)
  else if in_range "A" "F" c then Some (ord c - 55)
  else if in_range "a" "f" c then Some (ord c - 87)
  else None.

(** ASCII white space, which [int] strips on both sides. *)
Definition is_space (c : ascii) : bool :=
  (ord c =? 32) || ((9 <=? ord c) && (ord c <=? 13)).

(** [int(bytes([a, b]), 16)] on a slice of exactly two bytes, the only
    length [parse] ever passes: two hex digits, a sign and one hex digit, or
    one hex digit next to white space; anything else is a [ValueError]. *)
Definition int_hex2 (a b : ascii) : result Z :=
  match hex_digit a, hex_digit b with
  | Some x, Some y => Ok (16 * x + y)
  | None, Some y =>
      if byte_eqb a "-" then Ok (- y)
      else if byte_eqb a "+" || is_space a then Ok y
      else Raise ValueError
  | Some x, None => if is_space b then Ok x else Raise ValueError
  | None, None => Raise ValueError
  end.

(** ** The sentence framer: [class NmeaParser] *)

Module NmeaParser.

(** A compiled pattern is used only through [regexp.match(buffer)]. *)
Definition regexp := list ascii -> bool.

(** The pattern [^\$G[A-Z]GGA,] registered by the client. *)
Definition re_gga : regexp := fun b =>
  match b with
  | d :: g :: t :: g1 :: g2 :: a :: c :: _ =>
      byte_eqb d "$" && byte_eqb g "G" && in_range "A" "Z" t &&
      byte_eqb g1 "G" && byte_eqb g2 "G" && byte_eqb a "A" && byte_eqb c ","
  | _ => false
  end.

(** One invocation [self.callbacks[regexp](data)]: the position of the
    pattern in the dictionary and the text passed. *)
Inductive call : Type := Call (index : nat) (data : string).

(** The characters a frame may hold after its start delimiter. *)
Definition in_class (byte : ascii) : bool :=
  in_range "A" "Z" byte || in_range "0" "9" byte ||
  byte_eqb byte "," || byte_eqb byte "." || byte_eqb byte "-" ||
  byte_eqb byte "*".

(** [chksum = 0; for i in body: chksum ^= i] *)
Definition xor_bytes (body : list ascii) : Z :=
  fold_left (fun chksum i => Z.lxor chksum (ord i)) body 0.

(** [self.buffer[1:-3]] for a buffer of more than three bytes. *)
Definition payload (buffer : list ascii) : list ascii :=
  firstn (length buffer - 4) (skipn 1 buffer).

(** [self.buffer[-3]] and [self.buffer[-2:]], read from the end. *)
Definition tail3 (buffer : list ascii) : option (ascii * ascii * ascii) :=
  match rev buffer with
  | l :: h :: m :: _ => Some (m, h, l)
  | _ => None
  end.

(** [try: int(self.buffer[-2:], 16) except ValueError: -1] *)
Definition chksum_received (h l : ascii) : Z :=
  match int_hex2 h l with
  | Ok v => v
  | Raise _ => -1
  end.

Section Parser.

Context {St : Type}.

(** A callback takes the decoded sentence and acts on the program state. *)
Definition callback := string -> St -> result St.

(** [for regexp in self.callbacks.keys(): if regexp.match(self.buffer): ...]
    The dictionary is walked in insertion order; the loop has no [break]. *)
Fixpoint run_callbacks (index : nat) (callbacks : list (regexp * callback))
    (buffer : list ascii) (st : St) : result (St * list call) :=
  match callbacks with
  | [] => Ok (st, [])
  | (re, cb) :: rest =>
      if re buffer then
        match decode_ascii buffer with
        | Raise e => Raise e
        | Ok data =>
            match cb data st with
            | Raise e => Raise e
            | Ok st1 =>
                match run_callbacks (S index) rest buffer st1 with
                | Raise e => Raise e
                | Ok (st2, calls) => Ok (st2, Call index data :: calls)
                end
            end
        end
      else run_callbacks (S index) rest buffer st
  end.

(** The branch taken on a carriage return, [self.buffer] being set. *)
Definition on_cr (callbacks : list (regexp * callback))
    (buffer : list ascii) (st : St) : result (St * list call) :=
  if (3 <? Z.of_nat (length buffer))%Z then
    match tail3 buffer with
    | Some (m, h, l) =>
        if byte_eqb m "*" then
          if xor_bytes (payload buffer) =? chksum_received h l
          then run_callbacks 0 callbacks buffer st
          else Ok (st, [])
        else Ok (st, [])
    | None => Ok (st, [])
    end
  else Ok (st, []).

(** One iteration of [for byte in data]; the first component of the
    result is the new [self.buffer]. *)
Definition parse_byte (callbacks : list (regexp * callback))
    (buffer : option (list ascii)) (byte : ascii) (st : St)
    : result (option (list ascii) * St * list call) :=
  if byte_eqb byte "$" then Ok (Some [byte], st, [])
  else
    match buffer with
    | None => Ok (None, st, [])
    | Some buf =>
        if in_class byte then Ok (Some (buf ++ [byte]), st, [])
        else if ord byte =? 13 then
          match on_cr callbacks buf st with
          | Raise e => Raise e
          | Ok (st1, calls) => Ok (None, st1, calls)
          end
        else Ok (None, st, [])
    end.

(** [NmeaParser.parse(data)] *)
Fixpoint parse (callbacks : list (regexp * callback))
    (buffer : option (list ascii)) (data : list ascii) (st : St)
    : result (option (list ascii) * St * list call) :=
  match data with
  | [] => Ok (buffer, st, [])
  | byte :: rest =>
      match parse_byte callbacks buffer byte st with
      | Raise e => Raise e
      | Ok (buffer1, st1, calls1) =>
          match parse callbacks buffer1 rest st1 with
          | Raise e => Raise e
          | Ok (buffer2, st2, calls2) => Ok (buffer2, st2, calls1 ++ calls2)
          end
      end
  end.

End Parser.

End NmeaParser.

(** ** Python built-ins used by the client *)

Local Open Scope string_scope.
Local Open Scope list_scope.

(** Truthiness of a [str]: the empty string is false. *)
Definition truthy (s : string) : bool := negb (String.eqb s EmptyString).

(** Truthiness of a value that is [None] or a [str]. *)
Definition truthy_opt (o : option string) : bool :=
  match o with
  | Some s => truthy s
  | None => false
  end.

(** [str.split(',')] *)
Fixpoint split_comma_aux (cur : string) (s : string) : list string :=
  match s with
  | EmptyString => [cur]
  | String c rest =>
      if byte_eqb c ","
      then cur :: split_comma_aux EmptyString rest
      else split_comma_aux (cur +:+ String c EmptyString) rest
  end.

Definition split_comma (s : string) : list string := split_comma_aux EmptyString s.

(** [fields[i]] for a non-negative literal index. *)
Definition item (fields : list string) (i : nat) : result string :=
  match nth_error fields i with
  | Some f => Ok f
  | None => Raise IndexError
  end.

Definition digit (c : ascii) : option Z :=
  if in_range "0" "9" c then Some (ord c - 48) else None.

(** Value of a string of one or more decimal digits, most significant
    first, and the number of digits read. *)
Fixpoint digits_value (acc : Z) (n : nat) (s : string) : option (Z * nat) :=
  match s with
  | EmptyString => Some (acc, n)
  | String c rest =>
      match digit c with
      | Some d => digits_value (10 * acc + d) (S n) rest
      | None => None
      end
  end.

Definition unsigned_int (s : string) : option Z :=
  match s with
  | EmptyString => None
  | _ => option_map fst (digits_value 0 0 s)
  end.

(** [int(s)] for a [str] in base ten: an optional sign and one or more
    ASCII digits.  (White space around the number and underscores between
    digits, which [int] also accepts, do not occur in the strings the client
    converts and are rejected here.) *)
Definition py_int (s : string) : result Z :=
  match s with
  | String c rest =>
      if byte_eqb c "-" then
        match unsigned_int rest with Some v => Ok (- v) | None => Raise ValueError end
      else if byte_eqb c "+" then
        match unsigned_int rest with Some v => Ok v | None => Raise ValueError end
      else
        match unsigned_int s with Some v => Ok v | None => Raise ValueError end
  | EmptyString => Raise ValueError
  end.

(** Splits a numeral at its first ['.']. *)
Fixpoint split_dot (cur : string) (s : string) : string * option string :=
  match s with
  | EmptyString => (cur, None)
  | String c rest =>
      if byte_eqb c "."
      then (cur, Some rest)
      else split_dot (cur +:+ String c EmptyString) rest
  end.

Definition digits_or_empty (s : string) : option (Z * nat) := digits_value 0 0 s.

(** An unsigned decimal numeral [DDD], [DDD.], [DDD.DDD] or [.DDD], as the
    exact rational it denotes. *)
Definition unsigned_decimal (s : string) : option Q :=
  match split_dot EmptyString s with
  | (ip, None) =>
      match unsigned_int ip with
      | Some v => Some (inject_Z v)
      | None => None
      end
  | (ip, Some fp) =>
      match digits_or_empty ip, digits_or_empty fp with
      | Some (iv, il), Some (fv, fl) =>
          if (Nat.eqb il 0 && Nat.eqb fl 0)%bool then None
          else Some (inject_Z iv + inject_Z fv / inject_Z (10 ^ Z.of_nat fl))%Q
      | _, _ => None
      end
  end.

(** [float(s)] for a [str]: an optional sign and a decimal numeral.  (The
    exponent forms and the words [inf] and [nan], which [float] also
    accepts, have no exact rational value and are rejected here.) *)
Definition py_float (s : string) : result Q :=
  match s with
  | String c rest =>
      if byte_eqb c "-" then
        match unsigned_decimal rest with
        | Some v => Ok (- v)%Q
        | None => Raise ValueError
        end
      else if byte_eqb c "+" then
        match unsigned_decimal rest with Some v => Ok v | None => Raise ValueError end
      else
        match unsigned_decimal s with Some v => Ok v | None => Raise ValueError end
  | EmptyString => Raise ValueError
  end.

(** [int(x)] for a float [x]: truncation towards zero. *)
Definition int_of_float (x : Q) : Z :=
  if Qle_bool 0 x then Qfloor x else Qceiling x.

(** [x % m] for floats, [m] positive: the result has the sign of [m]. *)
Definition float_mod (x m : Q) : Q := (x - m * inject_Z (Qfloor (x / m)))%Q.

(** [round(x)] for a float [x]: to the nearest integer, ties to even. *)
Definition py_round (x : Q) : Z :=
  let f := Qfloor x in
  let r := (x - inject_Z f)%Q in
  match Qcompare r (1 # 2) with
  | Lt => f
  | Gt => f + 1
  | Eq => if Z.even f then f else f + 1
  end.

Definition Qltb (a b : Q) : bool := negb (Qle_bool b a).

(** [str(n)] for an [int]. *)
Definition digit_char (d : Z) : ascii := ascii_of_N (Z.to_N (48 + d)).

Fixpoint str_digits (fuel : nat) (n : Z) (acc : string) : string :=
  let acc1 := String (digit_char (n mod 10)) acc in
  match fuel with
  | O => acc1
  | S fuel1 => if (n <? 10)%Z then acc1 else str_digits fuel1 (n / 10) acc1
  end.

Definition str_of_nonneg (n : Z) : string :=
  str_digits (Z.to_nat (Z.log2 n)) n EmptyString.

Definition str_of_int (n : Z) : string :=
  if (n <? 0)%Z then String "-" (str_of_nonneg (- n)) else str_of_nonneg n.

Fixpoint zeros (n : nat) : string :=
  match n with
  | O => EmptyString
  | S m => String "0" (zeros m)
  end.

(** [f'{n:0wd}'] for a non-negative [n]: at least [w] digits. *)
Definition format_0d (w : nat) (n : Z) : string :=
  let s := str_of_nonneg n in
  zeros (w - String.length s) +:+ s.

(** [s[a:b]] for literal bounds [0 <= a <= b]. *)
Definition slice (a b : nat) (s : string) : string := substring a (b - a) s.

(** [s.startswith(p)] and [s.endswith(p)] *)
Definition startswith (p s : string) : bool := String.prefix p s.

Definition endswith (p s : string) : bool :=
  let n := String.length s in
  let k := String.length p in
  (k <=? n)%nat && String.eqb (substring (n - k) k s) p.

(** ** The client: [class PointPerfectClient] *)

(** [REGION_MAPPING], in the order the dictionary is written. *)
Definition REGION_MAPPING : list (string * string) :=
  [ ("S2655E13470", "au");
    ("N5245E01185", "eu");
    ("N3895E13960", "jp");
    ("N3310E13220", "jp");
    ("N3630E12820", "kr");
    ("N3920W09660", "us") ].

(** [REGION_MAPPING[key]] *)
Fixpoint region_lookup (table : list (string * string)) (key : string)
    : result string :=
  match table with
  | [] => Raise KeyError
  | (k, v) :: rest => if String.eqb k key then Ok v else region_lookup rest key
  end.

(** The tile dictionary: a JSON object with the keys ['nodes'],
    ['nodeprefix'] and ['endpoint']. *)
Record TileDict : Type := {
  nodes : list string;
  nodeprefix : string;
  endpoint : string
}.

(** The [stat] object built when statistics are requested. *)
Record Stats : Type := {
  stat_epochs : list Z;
  stat_total : Z;
  stat_interval : Z
}.

(** What the program takes from [math] and [json].  [json_loads] raises
    ([None]) on text that is not JSON; it returns [Some None] for a value
    that is false in a condition ([null], [{}]) and [Some (Some d)] for a
    tile dictionary. *)
Class Library : Type := {
  cos_radians : Q -> Q;
  pi : Q;
  json_loads : list ascii -> option (option TileDict)
}.

(** The role of a subscription.  It names the place in the program that
    asks for it; the library call itself takes the topic and the QoS. *)
Inductive purpose : Set :=
| KeyTopic
| Correction
| Tile
| AssistNow.

(** Calls on [self.mqtt_client] and on [self.gnss]. *)
Inductive action : Type :=
| Subscribe (p : purpose) (topic : string) (qos : Z)
| SubscribeList (topics : list (string * Z))
| Unsubscribe (topic : string)
| Disconnect
| Connect (server : string) (port : Z)
| GnssWrite (payload : list ascii).

(** The attributes of a [PointPerfectClient]. *)
Record PointPerfectClient : Type := {
  mqtt_server : string;
  mqtt_port : Z;
  localized : bool;
  epochs : option Q;              (* [None] is [float('inf')] *)
  tile_level : Z;
  plan : string;
  lat : Q;
  lon : Q;
  epoch_count : Z;
  dlat_threshold : Q;
  dlon_threshold : Q;
  tile_dict : option TileDict;
  tile_topic : string;
  spartn_topic : string;
  assist_now : bool;
  assist_now_topic : option string;
  connected : bool;
  new_server : option string;
  stats : option Stats;
  mqtt_topics : list (string * Z)
}.

Definition set_mqtt_server (v : string) (c : PointPerfectClient) :=
  {| mqtt_server := v; mqtt_port := mqtt_port c; localized := localized c;
     epochs := epochs c; tile_level := tile_level c; plan := plan c;
     lat := lat c; lon := lon c; epoch_count := epoch_count c;
     dlat_threshold := dlat_threshold c; dlon_threshold := dlon_threshold c;
     tile_dict := tile_dict c; tile_topic := tile_topic c;
     spartn_topic := spartn_topic c; assist_now := assist_now c;
     assist_now_topic := assist_now_topic c; connected := connected c;
     new_server := new_server c; stats := stats c;
     mqtt_topics := mqtt_topics c |}.

Definition set_position (la lo : Q) (c : PointPerfectClient) :=
  {| mqtt_server := mqtt_server c; mqtt_port := mqtt_port c;
     localized := localized c; epochs := epochs c;
     tile_level := tile_level c; plan := plan c;
     lat := la; lon := lo; epoch_count := epoch_count c;
     dlat_threshold := dlat_threshold c; dlon_threshold := dlon_threshold c;
     tile_dict := tile_dict c; tile_topic := tile_topic c;
     spartn_topic := spartn_topic c; assist_now := assist_now c;
     assist_now_topic := assist_now_topic c; connected := connected c;
     new_server := new_server c; stats := stats c;
     mqtt_topics := mqtt_topics c |}.

Definition set_epoch_count (v : Z) (c : PointPerfectClient) :=
  {| mqtt_server := mqtt_server c; mqtt_port := mqtt_port c;
     localized := localized c; epochs := epochs c;
     tile_level := tile_level c; plan := plan c;
     lat := lat c; lon := lon c; epoch_count := v;
     dlat_threshold := dlat_threshold c; dlon_threshold := dlon_threshold c;
     tile_dict := tile_dict c; tile_topic := tile_topic c;
     spartn_topic := spartn_topic c; assist_now := assist_now c;
     assist_now_topic := assist_now_topic c; connected := connected c;
     new_server := new_server c; stats := stats c;
     mqtt_topics := mqtt_topics c |}.

Definition set_dlon_threshold (v : Q) (c : PointPerfectClient) :=
  {| mqtt_server := mqtt_server c; mqtt_port := mqtt_port c;
     localized := localized c; epochs := epochs c;
     tile_level := tile_level c; plan := plan c;
     lat := lat c; lon := lon c; epoch_count := epoch_count c;
     dlat_threshold := dlat_threshold c; dlon_threshold := v;
     tile_dict := tile_dict c; tile_topic := tile_topic c;
     spartn_topic := spartn_topic c; assist_now := assist_now c;
     assist_now_topic := assist_now_topic c; connected := connected c;
     new_server := new_server c; stats := stats c;
     mqtt_topics := mqtt_topics c |}.

Definition set_tile_dict (v : option TileDict) (c : PointPerfectClient) :=
  {| mqtt_server := mqtt_server c; mqtt_port := mqtt_port c;
     localized := localized c; epochs := epochs c;
     tile_level := tile_level c; plan := plan c;
     lat := lat c; lon := lon c; epoch_count := epoch_count c;
     dlat_threshold := dlat_threshold c; dlon_threshold := dlon_threshold c;
     tile_dict := v; tile_topic := tile_topic c;
     spartn_topic := spartn_topic c; assist_now := assist_now c;
     assist_now_topic := assist_now_topic c; connected := connected c;
     new_server := new_server c; stats := stats c;
     mqtt_topics := mqtt_topics c |}.

Definition set_tile_topic (v : string) (c : PointPerfectClient) :=
  {| mqtt_server := mqtt_server c; mqtt_port := mqtt_port c;
     localized := localized c; epochs := epochs c;
     tile_level := tile_level c; plan := plan c;
     lat := lat c; lon := lon c; epoch_count := epoch_count c;
     dlat_threshold := dlat_threshold c; dlon_threshold := dlon_threshold c;
     tile_dict := tile_dict c; tile_topic := v;
     spartn_topic := spartn_topic c; assist_now := assist_now c;
     assist_now_topic := assist_now_topic c; connected := connected c;
     new_server := new_server c; stats := stats c;
     mqtt_topics := mqtt_topics c |}.

Definition set_spartn_topic (v : string) (c : PointPerfectClient) :=
  {| mqtt_server := mqtt_server c; mqtt_port := mqtt_port c;
     localized := localized c; epochs := epochs c;
     tile_level := tile_level c; plan := plan c;
     lat := lat c; lon := lon c; epoch_count := epoch_count c;
     dlat_threshold := dlat_threshold c; dlon_threshold := dlon_threshold c;
     tile_dict := tile_dict c; tile_topic := tile_topic c;
     spartn_topic := v; assist_now := assist_now c;
     assist_now_topic := assist_now_topic c; connected := connected c;
     new_server := new_server c; stats := stats c;
     mqtt_topics := mqtt_topics c |}.

Definition set_assist_now_topic (v : option string) (c : PointPerfectClient) :=
  {| mqtt_server := mqtt_server c; mqtt_port := mqtt_port c;
     localized := localized c; epochs := epochs c;
     tile_level := tile_level c; plan := plan c;
     lat := lat c; lon := lon c; epoch_count := epoch_count c;
     dlat_threshold := dlat_threshold c; dlon_threshold := dlon_threshold c;
     tile_dict := tile_dict c; tile_topic := tile_topic c;
     spartn_topic := spartn_topic c; assist_now := assist_now c;
     assist_now_topic := v; connected := connected c;
     new_server := new_server c; stats := stats c;
     mqtt_topics := mqtt_topics c |}.

Definition set_connected (v : bool) (c : PointPerfectClient) :=
  {| mqtt_server := mqtt_server c; mqtt_port := mqtt_port c;
     localized := localized c; epochs := epochs c;
     tile_level := tile_level c; plan := plan c;
     lat := lat c; lon := lon c; epoch_count := epoch_count c;
     dlat_threshold := dlat_threshold c; dlon_threshold := dlon_threshold c;
     tile_dict := tile_dict c; tile_topic := tile_topic c;
     spartn_topic := spartn_topic c; assist_now := assist_now c;
     assist_now_topic := assist_now_topic c; connected := v;
     new_server := new_server c; stats := stats c;
     mqtt_topics := mqtt_topics c |}.

Definition set_new_server (v : option string) (c : PointPerfectClient) :=
  {| mqtt_server := mqtt_server c; mqtt_port := mqtt_port c;
     localized := localized c; epochs := epochs c;
     tile_level := tile_level c; plan := plan c;
     lat := lat c; lon := lon c; epoch_count := epoch_count c;
     dlat_threshold := dlat_threshold c; dlon_threshold := dlon_threshold c;
     tile_dict := tile_dict c; tile_topic := tile_topic c;
     spartn_topic := spartn_topic c; assist_now := assist_now c;
     assist_now_topic := assist_now_topic c; connected := connected c;
     new_server := v; stats := stats c;
     mqtt_topics := mqtt_topics c |}.

Definition set_stats (v : option Stats) (c : PointPerfectClient) :=
  {| mqtt_server := mqtt_server c; mqtt_port := mqtt_port c;
     localized := localized c; epochs := epochs c;
     tile_level := tile_level c; plan := plan c;
     lat := lat c; lon := lon c; epoch_count := epoch_count c;
     dlat_threshold := dlat_threshold c; dlon_threshold := dlon_threshold c;
     tile_dict := tile_dict c; tile_topic := tile_topic c;
     spartn_topic := spartn_topic c; assist_now := assist_now c;
     assist_now_topic := assist_now_topic c; connected := connected c;
     new_server := new_server c; stats := v;
     mqtt_topics := mqtt_topics c |}.

(** *** Methods run in a monad of state, recorded calls and exceptions *)

Definition M (A : Type) : Type :=
  PointPerfectClient -> result (A * PointPerfectClient * list action).

Definition ret {A} (a : A) : M A := fun c => Ok (a, c, []).

Definition bind {A B} (m : M A) (k : A -> M B) : M B := fun c =>
  match m c with
  | Raise e => Raise e
  | Ok (a, c1, acts1) =>
      match k a c1 with
      | Raise e => Raise e
      | Ok (b, c2, acts2) => Ok (b, c2, acts1 ++ acts2)
      end
  end.

Definition get : M PointPerfectClient := fun c => Ok (c, c, []).

Definition modify (f : PointPerfectClient -> PointPerfectClient) : M unit :=
  fun c => Ok (tt, f c, []).

Definition emit (a : action) : M unit := fun c => Ok (tt, c, [a]).

Definition lift {A} (r : result A) : M A := fun c =>
  match r with
  | Ok a => Ok (a, c, [])
  | Raise e => Raise e
  end.

Definition rbind {A B} (r : result A) (k : A -> result B) : result B :=
  match r with
  | Ok a => k a
  | Raise e => Raise e
  end.

Notation "'let*' x ':=' m 'in' k" := (bind m (fun x => k))
  (at level 10, x pattern, m at level 100, k at level 200).
Notation "m ';;' k" := (bind m (fun _ => k))
  (at level 100, k at level 200, right associativity).
Notation "'let?' x ':=' r 'in' k" := (rbind r (fun x => k))
  (at level 10, x pattern, r at level 100, k at level 200).

Section Client.

Context `{Library}.

(** *** [get_tile_topic] *)

(** [[10.0, 5.0, 2.5][self.tile_level]]; a negative index counts from the
    end of the list. *)
Definition tile_delta (level : Z) : result Q :=
  let deltas := [10 # 1; 5 # 1; 5 # 2]%Q in
  let i := if (level <? 0)%Z then (level + 3)%Z else level in
  if (i <? 0)%Z then Raise IndexError
  else
    match nth_error deltas (Z.to_nat i) with
    | Some d => Ok d
    | None => Raise IndexError
    end.

(** [abs(round((floor(x / delta) * delta + delta / 2) * 100))] *)
Definition tile_center_hundredths (delta x : Q) : Z :=
  let llat := (inject_Z (Qfloor (x / delta)) * delta)%Q in
  let clat := (llat + delta / 2)%Q in
  Z.abs (py_round (clat * 100)).

Definition get_tile_topic (c : PointPerfectClient) (la lo : Q)
    : result string :=
  let? delta := tile_delta (tile_level c) in
  let n_s := if Qltb la 0 then "S" else "N" in
  let e_w := if Qltb lo 0 then "W" else "E" in
  let slat := tile_center_hundredths delta la in
  let slon := tile_center_hundredths delta lo in
  Ok ("pp/ip/L" +:+ str_of_int (tile_level c) +:+ n_s +:+ format_0d 4 slat
      +:+ e_w +:+ format_0d 5 slon +:+ "/dict").

(** *** [select_node] *)

(** [node.translate(str.maketrans('NSEW', '0-0-'))] *)
Definition nsew_to_sign (ch : ascii) : ascii :=
  if byte_eqb ch "N" then "0"%char
  else if byte_eqb ch "S" then "-"%char
  else if byte_eqb ch "E" then "0"%char
  else if byte_eqb ch "W" then "-"%char
  else ch.

Fixpoint translate (s : string) : string :=
  match s with
  | EmptyString => EmptyString
  | String ch rest => String (nsew_to_sign ch) (translate rest)
  end.

(** [node_lat] and [node_lon] of a node name, in hundredths of a degree. *)
Definition node_coordinates (node : string) : result (Z * Z) :=
  let node_signed := translate node in
  let? node_lat := py_int (slice 0 5 node_signed) in
  let? node_lon := py_int (slice 5 11 node_signed) in
  Ok (node_lat, node_lon).

(** [dist_scaled] of a node at [(node_lat, node_lon)]. *)
Definition dist_scaled (rounded_lat rounded_lon : Z) (factor_lon : Q)
    (node_lat node_lon : Z) : Q :=
  (inject_Z ((node_lat - rounded_lat) ^ 2)
   + (inject_Z (node_lon - rounded_lon) * factor_lon) ^ 2)%Q.

(** [dist_scaled < min_dist_scaled], where [None] is [float('inf')]. *)
Definition below (d : Q) (min_dist_scaled : option Q) : bool :=
  match min_dist_scaled with
  | None => true
  | Some m => Qltb d m
  end.

(** The loop [for node in self.tile_dict['nodes']], from a given
    [min_dist_scaled] and [nearest_node]; [nearest_node] is [None] while
    the local name is unbound. *)
Fixpoint nearest_loop (rounded_lat rounded_lon : Z) (factor_lon : Q)
    (nodes : list string) (min_dist_scaled : option Q)
    (nearest_node : option string) : result (option Q * option string) :=
  match nodes with
  | [] => Ok (min_dist_scaled, nearest_node)
  | node :: rest =>
      let? (node_lat, node_lon) := node_coordinates node in
      let d := dist_scaled rounded_lat rounded_lon factor_lon node_lat node_lon in
      if below d min_dist_scaled
      then nearest_loop rounded_lat rounded_lon factor_lon rest (Some d) (Some node)
      else nearest_loop rounded_lat rounded_lon factor_lon rest
             min_dist_scaled nearest_node
  end.

(** The search of [select_node], up to the first use of [nearest_node]. *)
Definition nearest (la lo : Q) (nodes : list string) : result string :=
  let rounded_lat := py_round (la * 100) in
  let rounded_lon := py_round (lo * 100) in
  let factor_lon := cos_radians la in
  let? (_, nearest_node) :=
    nearest_loop rounded_lat rounded_lon factor_lon nodes None None in
  match nearest_node with
  | Some node => Ok node
  | None => Raise UnboundLocalError
  end.

Definition select_node : M unit :=
  let* c := get in
  match tile_dict c with
  | None => ret tt
  | Some d =>
      let* nearest_node := lift (nearest (lat c) (lon c) (nodes d)) in
      let* nearest_node :=
        (if localized c then ret nearest_node
         else lift (region_lookup REGION_MAPPING nearest_node)) in
      if negb (String.eqb (mqtt_server c) (endpoint d)) then
        modify (set_new_server (Some (endpoint d))) ;;
        modify (set_spartn_topic (nodeprefix d +:+ nearest_node)) ;;
        emit Disconnect
      else
        (if truthy (spartn_topic c)
         then emit (Unsubscribe (spartn_topic c))
         else ret tt) ;;
        modify (set_spartn_topic (nodeprefix d +:+ nearest_node)) ;;
        emit (Subscribe Correction (nodeprefix d +:+ nearest_node) 0)
  end.

(** *** [process_position] *)

(** [self.epoch_count > self.epochs] *)
Definition epochs_exceeded (count : Z) (limit : option Q) : bool :=
  match limit with
  | None => false
  | Some e => Qltb e (inject_Z count)
  end.

Definition process_position (la lo : Q) : M unit :=
  let* c := get in
  if localized c then
    modify (set_epoch_count (epoch_count c + 1)) ;;
    if Qltb (dlat_threshold c) (Qabs (la - lat c))
       || Qltb (dlon_threshold c) (Qabs (lo - lon c))
       || epochs_exceeded (epoch_count c + 1) (epochs c)
    then
      modify (set_position la lo) ;;
      modify (set_epoch_count 0) ;;
      modify (set_dlon_threshold (dlat_threshold c * cos_radians la)) ;;
      let* new_tile_topic := lift (get_tile_topic c la lo) in
      if negb (String.eqb new_tile_topic (tile_topic c)) then
        (if truthy (tile_topic c)
         then emit (Unsubscribe (tile_topic c))
         else ret tt) ;;
        emit (Subscribe Tile new_tile_topic 1) ;;
        modify (set_tile_topic new_tile_topic)
      else select_node
    else ret tt
  else
    if negb (truthy (spartn_topic c)) then
      modify (set_position la lo) ;;
      modify (set_tile_dict
                (Some {| nodes := map fst REGION_MAPPING;
                         nodeprefix := "/pp/" +:+ plan c +:+ "/";
                         endpoint := mqtt_server c |})) ;;
      select_node
    else ret tt.

(** *** [handle_nmea_gga] *)

(** [int(f / 100) + (f % 100) / 60] *)
Definition degrees (f : Q) : Q :=
  (inject_Z (int_of_float (f / 100)) + float_mod f 100 / 60)%Q.

(** The decoding part of [handle_nmea_gga]: quality, latitude, longitude. *)
Definition decode_gga (sentence : string) : result (Z * Q * Q) :=
  let fields := split_comma sentence in
  let? f6 := item fields 6 in
  let? quality := (if truthy f6 then py_int f6 else Ok 0%Z) in
  let? f2 := item fields 2 in
  let? f_lat := (if truthy f2 then py_float f2 else Ok 0%Q) in
  let la := degrees f_lat in
  let? f3 := item fields 3 in
  let la := if String.eqb f3 "S" then (la * -1)%Q else la in
  let? f4 := item fields 4 in
  let? f_lon := (if truthy f4 then py_float f4 else Ok 0%Q) in
  let lo := degrees f_lon in
  let? f5 := item fields 5 in
  let lo := if String.eqb f5 "W" then (lo * -1)%Q else lo in
  Ok (quality, la, lo).

(** [self.stats.epochs[quality] += 1; self.stats.total += 1] *)
Definition count_epoch (quality : Z) (s : Stats) : result Stats :=
  let n := Z.of_nat (length (stat_epochs s)) in
  let i := if (quality <? 0)%Z then (quality + n)%Z else quality in
  if ((i <? 0) || (n <=? i))%Z then Raise IndexError
  else
    match stat_epochs s !! Z.to_nat i with
    | Some k =>
        Ok {| stat_epochs := <[Z.to_nat i := (k + 1)%Z]> (stat_epochs s);
              stat_total := (stat_total s + 1)%Z;
              stat_interval := stat_interval s |}
    | None => Raise IndexError
    end.

Definition update_stats (quality : Z) : M unit :=
  let* c := get in
  match stats c with
  | None => ret tt
  | Some s =>
      let* s1 := lift (count_epoch quality s) in
      modify (set_stats (Some s1))
  end.

(** The branch on the quality code that ends [handle_nmea_gga]. *)
Definition on_quality (quality : Z) (la lo : Q) : M unit :=
  let* c := get in
  if ((quality =? 0) || (quality =? 6))%Z then
    if negb (truthy_opt (assist_now_topic c)) then
      modify (set_assist_now_topic (Some "/pp/ubx/mga")) ;;
      emit (Subscribe AssistNow "/pp/ubx/mga" 1)
    else ret tt
  else
    (match assist_now_topic c with
     | Some topic =>
         if truthy topic && negb (assist_now c) then
           emit (Unsubscribe topic) ;;
           modify (set_assist_now_topic None)
         else ret tt
     | None => ret tt
     end) ;;
    process_position la lo.

Definition handle_nmea_gga (sentence : string) : M unit :=
  let* (quality, la, lo) := lift (decode_gga sentence) in
  update_stats quality ;;
  on_quality quality la lo.

(** *** The MQTT callbacks *)

Definition on_mqtt_connect (return_code : Z) : M unit :=
  if (return_code =? 0)%Z then
    modify (set_connected true) ;;
    let* c := get in
    (match mqtt_topics c with
     | [] => ret tt
     | _ :: _ => emit (SubscribeList (mqtt_topics c))
     end) ;;
    (if truthy (spartn_topic c)
     then emit (Subscribe Correction (spartn_topic c) 0)
     else ret tt) ;;
    match assist_now_topic c with
    | Some topic =>
        if truthy topic then
          let qos := if endswith "/updates" topic then 0%Z else 1%Z in
          emit (Subscribe AssistNow topic qos)
        else ret tt
    | None => ret tt
    end
  else ret tt.

Definition on_mqtt_disconnect (return_code : Z) : M unit :=
  modify (set_connected false) ;;
  let* c := get in
  match new_server c with
  | Some server =>
      if truthy server then
        modify (set_mqtt_server server) ;;
        modify (set_new_server None) ;;
        emit (Connect server (mqtt_port c))
      else ret tt
  | None => ret tt
  end.

Definition process_tile_data (data : list ascii) : M unit :=
  match json_loads data with
  | None => lift (Raise AssertionError)
  | Some d => modify (set_tile_dict d) ;; select_node
  end.

Definition on_mqtt_message (topic : string) (payload : list ascii) : M unit :=
  let* c := get in
  if startswith ("/pp/" +:+ plan c +:+ "/") topic then
    emit (GnssWrite payload)
  else if startswith "/pp/ubx/" topic then
    emit (GnssWrite payload) ;;
    if String.eqb topic "/pp/ubx/mga" then
      emit (Unsubscribe "/pp/ubx/mga") ;;
      modify (set_assist_now_topic (Some "/pp/ubx/mga/updates")) ;;
      emit (Subscribe AssistNow "/pp/ubx/mga/updates" 0)
    else ret tt
  else if startswith "pp/ip" topic then
    if endswith "/dict" topic then process_tile_data payload
    else emit (GnssWrite payload)
  else ret tt.

(** *** [__init__] and the read loop *)

(** The attributes after [__init__], whose last act is a successful
    [connect] to the first server. *)
Definition init (server : string) (port : Z) (is_localized : bool)
    (level : Z) (lband : bool) (region : option string) (distance : Q)
    (max_epochs : option Q) (stats_interval : option Z) (force_assist : bool)
    : PointPerfectClient * list action :=
  let the_plan := if lband then "Lb" else "ip" in
  ({| mqtt_server := server;
      mqtt_port := port;
      localized := is_localized;
      epochs := max_epochs;
      tile_level := level;
      plan := the_plan;
      lat := 0;
      lon := 0;
      epoch_count := 0;
      dlat_threshold := (distance * 360 / (6371000 * 2 * pi))%Q;
      dlon_threshold := 0;
      tile_dict := None;
      tile_topic := EmptyString;
      spartn_topic :=
        if negb is_localized && truthy_opt region
        then "/pp/" +:+ the_plan +:+ "/" +:+ default EmptyString region
        else EmptyString;
      assist_now := force_assist;
      assist_now_topic := if force_assist then Some "/pp/ubx/mga" else None;
      connected := false;
      new_server := None;
      stats :=
        match stats_interval with
        | Some n =>
            if (n =? 0)%Z then None
            else Some {| stat_epochs := repeat 0%Z 9; stat_total := 0;
                         stat_interval := n |}
        | None => None
        end;
      mqtt_topics :=
        if is_localized then []
        else [("/pp/ubx/0236/" +:+ the_plan, 1%Z)] |},
   [Connect server port]).

(** [handlers = { re.compile(b'^\\$G[A-Z]GGA,'): self.handle_nmea_gga }],
    as callbacks on the client and the calls it has made so far. *)
Definition as_callback (method : string -> M unit)
    : @NmeaParser.callback (PointPerfectClient * list action) :=
  fun data st =>
    match method data (fst st) with
    | Raise e => Raise e
    | Ok (_, c1, acts) => Ok (c1, snd st ++ acts)
    end.

Definition handlers
    : list (NmeaParser.regexp
            * @NmeaParser.callback (PointPerfectClient * list action)) :=
  [(NmeaParser.re_gga, as_callback handle_nmea_gga)].

(** [self.nmea_parser.parse(buffer[0:bytes_read])]; the value returned is
    the frame buffer the parser keeps for the next chunk. *)
Definition feed (buffer : option (list ascii)) (data : list ascii)
    : M (option (list ascii)) :=
  fun c =>
    match NmeaParser.parse handlers buffer data (c, []) with
    | Raise e => Raise e
    | Ok (buffer1, st, _) => Ok (buffer1, fst st, snd st)
    end.

End Client.

(** ** The session: the client, its parser and the broker's view *)

(** Modelled from the spec: the pub/sub transport, which is a library
    outside this repository.  The broker holds the active subscriptions of
    the session, one per topic; [subscribe] adds, [unsubscribe] removes, and
    a disconnect drops them all, so a new connection starts with none.  A
    request made while the session is not connected is counted as well. *)
Definition deliver (a : action) (subs : gmap string purpose)
    : gmap string purpose :=
  match a with
  | Subscribe p topic _ => <[topic := p]> subs
  | SubscribeList topics =>
      fold_left (fun m tq => <[fst tq := KeyTopic]> m) topics subs
  | Unsubscribe topic => delete topic subs
  | Disconnect => ∅
  | Connect _ _ => ∅
  | GnssWrite _ => subs
  end.

Definition deliver_all (acts : list action) (subs : gmap string purpose)
    : gmap string purpose :=
  fold_left (fun m a => deliver a m) acts subs.

Record session : Type := {
  client : PointPerfectClient;
  frame : option (list ascii);
  active : gmap string purpose
}.

(** What happens to a running client: a chunk read from the receiver, or a
    callback of the MQTT library. *)
Inductive event : Type :=
| Received (data : list ascii)
| ConnAck (return_code : Z)
| Disconnected (return_code : Z)
| Message (topic : string) (payload : list ascii).

Section Session.

Context `{Library}.

(** The session once [__init__] has returned. *)
Definition start (c0 : PointPerfectClient * list action) : session :=
  {| client := fst c0; frame := None; active := deliver_all (snd c0) ∅ |}.

(** One event: the method it runs on the client, and the broker's view
    after the calls the method made.  A disconnect that has completed has
    left the broker without subscriptions of the session. *)
Definition step (ev : event) (s : session) : result session :=
  match ev with
  | Received data =>
      match feed (frame s) data (client s) with
      | Raise e => Raise e
      | Ok (buffer1, c1, acts) =>
          Ok {| client := c1; frame := buffer1;
                active := deliver_all acts (active s) |}
      end
  | ConnAck rc =>
      match on_mqtt_connect rc (client s) with
      | Raise e => Raise e
      | Ok (_, c1, acts) =>
          Ok {| client := c1; frame := frame s;
                active := deliver_all acts (active s) |}
      end
  | Disconnected rc =>
      match on_mqtt_disconnect rc (client s) with
      | Raise e => Raise e
      | Ok (_, c1, acts) =>
          Ok {| client := c1; frame := frame s;
                active := deliver_all acts ∅ |}
      end
  | Message topic payload =>
      match on_mqtt_message topic payload (client s) with
      | Raise e => Raise e
      | Ok (_, c1, acts) =>
          Ok {| client := c1; frame := frame s;
                active := deliver_all acts (active s) |}
      end
  end.

(** A sequence of events, up to the first exception. *)
Fixpoint run (evs : list event) (s : session) : result session :=
  match evs with
  | [] => Ok s
  | ev :: rest =>
      match step ev s with
      | Raise e => Raise e
      | Ok s1 => run rest s1
      end
  end.

End Session.

(** ** The receiver: [class RosPointPerfectPublisher] *)

Module RosPointPerfectPublisher.

(** [bytes(s, 'utf-8')] for a [str] whose code points are below 256, the
    ones a [string] holds: one byte below 128, two bytes from 128 on. *)
Definition encode_char (c : ascii) : list ascii :=
  if (ord c <? 128)%Z then [c]
  else [ascii_of_N (Z.to_N (192 + ord c / 64));
        ascii_of_N (Z.to_N (128 + ord c mod 64))].

Definition encode_utf8 (s : string) : list ascii :=
  flat_map encode_char (list_ascii_of_string s).

(** The attributes the methods use: the content of [self.nmea_buffer], a
    [BytesIO] that is always read from its start, and the messages
    published on [self.talker] so far. *)
Record t : Type := {
  nmea_buffer : option (list ascii);
  talker : list (list Z)
}.

(** [on_nmea_message], the callback of the [/nmea] topic.  A message is a
    dictionary; its values are taken to be strings. *)
Definition on_nmea_message (message : gmap string string) (self : t)
    : result t :=
  match message !! "sentence" with
  | None => Raise KeyError
  | Some sentence =>
      Ok {| nmea_buffer :=
              Some (encode_utf8 (sentence +:+ String "013" (String "010" EmptyString)));
            talker := talker self |}
  end.

(** [write]: the payload is published as the list of its byte values. *)
Definition write (message : list ascii) (self : t) : t :=
  {| nmea_buffer := nmea_buffer self;
     talker := talker self ++ [map ord message] |}.

(** [readinto(b)]: the bytearray [b] after the call, the number returned
    and the object after the call.  [BytesIO.readinto] copies as many bytes
    as [b] has room for and leaves the rest of [b] as it was. *)
Definition readinto (b : list ascii) (self : t) : list ascii * nat * t :=
  match nmea_buffer self with
  | None => (b, 0%nat, self)
  | Some data =>
      let x := Nat.min (length b) (length data) in
      (firstn x data ++ skipn x b, x,
       {| nmea_buffer := None; talker := talker self |})
  end.

End RosPointPerfectPublisher.

(** ** The read loop: [PointPerfectClient.loop_forever] *)

(** The objects the loop works on: the receiver, the [bytearray(100)] it
    reads into, the content written to [self.ubxfile] when there is one,
    and the session.  The callbacks of the receiver and of the MQTT library
    run on other threads; they are taken to run between two iterations. *)
Record reader : Type := {
  gnss : RosPointPerfectPublisher.t;
  read_buffer : list ascii;
  ubxfile : option (list ascii);
  running : session
}.

Section ReadLoop.

Context `{Library}.

(** [buffer = bytearray(100)] before the first iteration. *)
Definition loop_entry (publisher : RosPointPerfectPublisher.t)
    (file : option (list ascii)) (s : session) : reader :=
  {| gnss := publisher; read_buffer := repeat "000"%char 100;
     ubxfile := file; running := s |}.

(** One iteration of [while True] in [loop_forever]. *)
Definition loop_body (l : reader) : result reader :=
  match RosPointPerfectPublisher.readinto (read_buffer l) (gnss l) with
  | (buffer1, bytes_read, gnss1) =>
      if (bytes_read =? 0)%nat then
        Ok {| gnss := gnss1; read_buffer := buffer1; ubxfile := ubxfile l;
              running := running l |}
      else
        let data := firstn bytes_read buffer1 in
        let file1 :=
          match ubxfile l with
          | Some written => Some (written ++ data)
          | None => None
          end in
        match step (Received data) (running l) with
        | Raise e => Raise e
        | Ok s1 =>
            Ok {| gnss := gnss1; read_buffer := buffer1; ubxfile := file1;
                  running := s1 |}
        end
  end.

End ReadLoop.

(** ** The server URI: [load_json_credentials] *)

(** The text after the prefix [p], when [s] starts with it. *)
Fixpoint after_prefix (p s : string) : option string :=
  match p, s with
  | EmptyString, _ => Some s
  | String a p1, String b s1 =>
      if Ascii.eqb a b then after_prefix p1 s1 else None
  | String _ _, EmptyString => None
  end.

Definition starts_with_digit (s : string) : bool :=
  match s with
  | String c _ => in_range "0" "9" c
  | EmptyString => false
  end.

(** What [\d+] takes: the digits [s] starts with, all of them. *)
Fixpoint take_digits (s : string) : string :=
  match s with
  | String c rest =>
      if in_range "0" "9" c then String c (take_digits rest) else EmptyString
  | EmptyString => EmptyString
  end.

(** The groups of [(.+):(\d+)] at the start of [s].  [.+] is greedy and
    does not pass a line feed, so it ends before the last colon of the
    first line that has a digit after it and a character before it;
    [seen] is the text passed so far and [best] the last such split. *)
Fixpoint last_port (seen s : string) (best : option (string * string))
    : option (string * string) :=
  match s with
  | EmptyString => best
  | String c rest =>
      if byte_eqb c "010" then best
      else
        last_port (seen +:+ String c EmptyString) rest
          (if byte_eqb c ":" && negb (String.eqb seen EmptyString)
              && starts_with_digit rest
           then Some (seen, take_digits rest)
           else best)
  end.

(** [re.match(r'(tcp|ssl)://(.+):(\d+)', server_uri)]: the three groups
    of the match, or [None]. *)
Definition match_server_uri (server_uri : string)
    : option (string * string * string) :=
  match after_prefix "tcp://" server_uri with
  | Some rest =>
      match last_port EmptyString rest None with
      | Some (server, port) => Some ("tcp", server, port)
      | None => None
      end
  | None =>
      match after_prefix "ssl://" server_uri with
      | Some rest =>
          match last_port EmptyString rest None with
          | Some (server, port) => Some ("ssl", server, port)
          | None => None
          end
      | None => None
      end
  end.

(** How the lines that parse the server URI end: [args.server] is set and
    both assertions hold, [match] is [None] and [match.group] raises
    [AttributeError], or an assertion fails. *)
Inductive uri_result : Type :=
| Server (server : string)
| NoMatch
| Refused.

Definition server_of_uri (server_uri : string) : uri_result :=
  match match_server_uri server_uri with
  | None => NoMatch
  | Some (scheme, server, port) =>
      if negb (String.eqb scheme "ssl") then Refused
      else if negb (String.eqb port "8883") then Refused
      else Server server
  end.

(** ** Notions the properties are stated with *)

(** A frame in progress: the start delimiter, then characters of the class. *)
Definition frame_ok (buffer : list ascii) : bool :=
  match buffer with
  | d :: rest => byte_eqb d "$" && forallb NmeaParser.in_class rest
  | [] => false
  end.

Definition frame_opt_ok (buffer : option (list ascii)) : bool :=
  match buffer with
  | Some b => frame_ok b
  | None => true
  end.

(** A text that starts with ['$'] and holds no carriage return. *)
Definition well_delimited (text : string) : bool :=
  match text with
  | String d rest =>
      byte_eqb d "$" &&
      forallb (fun ch => negb (ord ch =? 13)%Z) (list_ascii_of_string rest)
  | EmptyString => false
  end.

Definition call_data (c : NmeaParser.call) : string :=
  match c with NmeaParser.Call _ data => data end.

(** Positions, counted from [index], of the patterns that match a buffer. *)
Fixpoint matching {St : Type} (index : nat)
    (callbacks : list (NmeaParser.regexp * @NmeaParser.callback St))
    (buffer : list ascii) : list nat :=
  match callbacks with
  | [] => []
  | (re, _) :: rest =>
      if re buffer
      then index :: matching (S index) rest buffer
      else matching (S index) rest buffer
  end.

(** The frame ends in ['*'] and two bytes that [int(_, 16)] reads as the
    exclusive-or of the payload. *)
Definition checksum_valid (buffer : list ascii) : bool :=
  (3 <? Z.of_nat (length buffer))%Z &&
  match NmeaParser.tail3 buffer with
  | Some (m, h, l) =>
      byte_eqb m "*" &&
      (NmeaParser.xor_bytes (NmeaParser.payload buffer)
       =? NmeaParser.chksum_received h l)%Z
  | None => false
  end.

(** A call made for a whole frame with a valid checksum. *)
Definition dispatched_frame (c : NmeaParser.call) : Prop :=
  exists buffer,
    frame_ok buffer = true /\ checksum_valid buffer = true /\
    call_data c = string_of_list_ascii buffer.



Section SearchNotions.

Context `{Library}.




End SearchNotions.



(** A stand-in for the libraries, for running the model: the cosine by its
    Taylor polynomial of degree six, and a decoder that knows two texts. *)
Definition cos_approx (x : Q) : Q :=
  let t := (x * (355 # 113) / 180)%Q in
  let t2 := (t * t)%Q in
  Qred (1 - t2 / 2 + t2 * t2 / 24 - t2 * t2 * t2 / 720)%Q.

Definition sample_dict : TileDict :=
  {| nodes := ["N4807E01131"; "N3920W09660"];
     nodeprefix := "pp/ip/";
     endpoint := "pp.services.u-blox.com" |}.

(** The JSON text of [sample_dict]; [quoted s] is [s] between double
    quotes. *)
Definition quoted (s : string) : string :=
  String "034" (s +:+ String "034" EmptyString).

Definition sample_json : string :=
  "{" +:+ quoted "nodes" +:+ ": [" +:+ quoted "N4807E01131" +:+ ", "
  +:+ quoted "N3920W09660" +:+ "], " +:+ quoted "nodeprefix" +:+ ": "
  +:+ quoted "pp/ip/" +:+ ", " +:+ quoted "endpoint" +:+ ": "
  +:+ quoted "pp.services.u-blox.com" +:+ "}".

Definition sample_library : Library :=
  {| cos_radians := cos_approx;
     pi := 355 # 113;
     json_loads := fun data =>
       if String.eqb (string_of_list_ascii data) sample_json
       then Some (Some sample_dict)
       else if String.eqb (string_of_list_ascii data) "null" then Some None
       else None |}.

(** A localized client, as [__init__] leaves it, holding the sample tile
    dictionary. *)
Definition sample_client : PointPerfectClient :=
  set_tile_dict (Some sample_dict)
    (fst (init (H := sample_library) "pp.services.u-blox.com" 8883 true 2
            false None 50000 None None false)).

(** The client once a fix of quality other than 0 and 6 has removed the
    initialization topic, and the call that removal makes. *)
Definition assist_cleared (c : PointPerfectClient) : PointPerfectClient :=
  if truthy_opt (assist_now_topic c) && negb (assist_now c)
  then set_assist_now_topic None c
  else c.

Definition assist_unsubscribed (c : PointPerfectClient) : list action :=
  match assist_now_topic c with
  | Some topic =>
      if truthy topic && negb (assist_now c) then [Unsubscribe topic] else []
  | None => []
  end.

(** No call in the list subscribes to an initialization topic. *)
Definition no_assist_subscription (acts : list action) : Prop :=
  forall topic qos, ~ In (Subscribe AssistNow topic qos) acts.



(** The attributes [process_position] leaves when it records a position. *)
Definition recorded_position `{Library} (la lo : Q) (c : PointPerfectClient)
    : PointPerfectClient :=
  set_dlon_threshold (dlat_threshold c * cos_radians la)
    (set_epoch_count 0
       (set_position la lo (set_epoch_count (epoch_count c + 1) c))).

(** [process_position] records the position: it moved beyond a threshold
    or the epoch counter ran out. *)
Definition must_recompute (la lo : Q) (c : PointPerfectClient) : bool :=
  Qltb (dlat_threshold c) (Qabs (la - lat c))
  || Qltb (dlon_threshold c) (Qabs (lo - lon c))
  || epochs_exceeded (epoch_count c + 1) (epochs c).

(** The synthetic dictionary of region mode. *)
Definition region_dict (c : PointPerfectClient) : TileDict :=
  {| nodes := map fst REGION_MAPPING;
     nodeprefix := "/pp/" +:+ plan c +:+ "/";
     endpoint := mqtt_server c |}.

(** At most one active subscription has the given role. *)
Definition at_most_one (p : purpose) (subs : gmap string purpose) : Prop :=
  forall t1 t2, subs !! t1 = Some p -> subs !! t2 = Some p -> t1 = t2.

(** Every active tile subscription is the tile topic the client records,
    and every active correction subscription is the correction topic it
    records. *)
Definition consistent (c : PointPerfectClient) (subs : gmap string purpose)
    : Prop :=
  (forall t, subs !! t = Some Tile -> t = tile_topic c /\ truthy t = true) /\
  (forall t, subs !! t = Some Correction ->
             t = spartn_topic c /\ truthy t = true).

(** No tile or correction subscription is in [subs1] that is not in [subs]. *)
Definition shrinks (subs1 subs : gmap string purpose) : Prop :=
  forall t p, p = Tile \/ p = Correction ->
              subs1 !! t = Some p -> subs !! t = Some p.

(** A method keeps the client and the broker consistent. *)
Definition preserves (m : M unit) : Prop :=
  forall c subs c1 acts,
    consistent c subs -> m c = Ok (tt, c1, acts) ->
    consistent c1 (deliver_all acts subs).

(** A session with no subscription yet. *)
Definition fresh (c : PointPerfectClient) (buffer : option (list ascii))
    : session :=
  {| client := c; frame := buffer; active := ∅ |}.

(** The centre of a tile read back from its topic
    [pp/ip/L<level><name>/dict]: the eleven characters of <name> are read
    as [select_node] reads a node name, in hundredths of a degree. *)
Definition tile_center_of_topic (topic : string) : result (Q * Q) :=
  let? (la, lo) := node_coordinates (substring 8 11 topic) in
  Ok (inject_Z la / 100, inject_Z lo / 100)%Q.

(** The centre of the [k]-th cell of a level, in hundredths of a degree. *)
Definition cell_center_hundredths (level k : Z) : Z :=
  match level with
  | 0 => 1000 * k + 500
  | 1 => 500 * k + 250
  | _ => 250 * k + 125
  end%Z.

(** The tile topic of the cell [(klat, klon)]. *)
Definition topic_of_cell (level klat klon : Z) : string :=
  "pp/ip/L" +:+ str_of_int level
  +:+ (if (klat <? 0)%Z then "S" else "N")
  +:+ format_0d 4 (Z.abs (cell_center_hundredths level klat))
  +:+ (if (klon <? 0)%Z then "W" else "E")
  +:+ format_0d 5 (Z.abs (cell_center_hundredths level klon))
  +:+ "/dict".

(** The integers [lo], ..., [lo + n - 1]. *)
Definition zrange (lo : Z) (n : nat) : list Z :=
  map (fun i => (lo + Z.of_nat i)%Z) (seq 0 n).

(** The latitude and the longitude part of the topic of a cell. *)
Definition lat_part (level klat : Z) : string :=
  (if (klat <? 0)%Z then "S" else "N")
  +:+ format_0d 4 (Z.abs (cell_center_hundredths level klat)).

Definition lon_part (level klon : Z) : string :=
  (if (klon <? 0)%Z then "W" else "E")
  +:+ format_0d 5 (Z.abs (cell_center_hundredths level klon)).

(** A part has the width [select_node] slices, and reads as [value]. *)
Definition part_reads (width : nat) (part : string) (value : Z) : bool :=
  (String.length part =? width)%nat &&
  match py_int (translate part) with
  | Ok v => (v =? value)%Z
  | Raise _ => false
  end.

(** The parts of the cells of a level that hold a latitude in [-100, 100)
    and a longitude in [-1000, 1000) read back as the centre of the cell:
    [cells] per ten degrees. *)
Definition level_parts_read (level : Z) (cells : nat) : bool :=
  forallb (fun klat => part_reads 5 (lat_part level klat)
                         (cell_center_hundredths level klat))
          (zrange (- Z.of_nat (10 * cells)) (20 * cells))
  && forallb (fun klon => part_reads 6 (lon_part level klon)
                            (cell_center_hundredths level klon))
             (zrange (- Z.of_nat (100 * cells)) (200 * cells)).

(** The edge of a level, and the number of its cells in ten degrees. *)
Inductive level_edge : Z -> Q -> nat -> Prop :=
| edge0 : level_edge 0 (10 # 1) 1
| edge1 : level_edge 1 (5 # 1) 2
| edge2 : level_edge 2 (5 # 2) 4.

(** A short session: connected, one fix, then the dictionary of its tile. *)
Definition sample_fix : list ascii :=
  list_ascii_of_string
    "$GPGGA,123519,4807.038,N,01131.000,E,1,08,0.9,545.4,M,46.9,M,,*47"
  ++ ["013"%char; "010"%char].

Definition sample_events : list event :=
  [ConnAck 0; Received sample_fix;
   Message "pp/ip/L2N4875E01125/dict" (list_ascii_of_string sample_json)].

Definition sample_start : session :=
  fresh (fst (init (H := sample_library) "pp.services.u-blox.com" 8883 true 2
                false None 50000 None None false)) None.

(** ** Notions for the further properties *)

(** The sum of the counters of a [stat] object. *)
Definition sumZ (l : list Z) : Z := fold_right Z.add 0%Z l.

(** The counters add up to the total. *)
Definition stats_ok (c : PointPerfectClient) : Prop :=
  match stats c with
  | Some s => sumZ (stat_epochs s) = stat_total s
  | None => True
  end.

(** Feeding chunks one after the other, as the read loop does; the calls of
    all chunks are collected in order. *)
Fixpoint parse_chunks {St : Type}
    (callbacks : list (NmeaParser.regexp * @NmeaParser.callback St))
    (buffer : option (list ascii)) (chunks : list (list ascii)) (st : St)
    : result (option (list ascii) * St * list NmeaParser.call) :=
  match chunks with
  | [] => Ok (buffer, st, [])
  | chunk :: rest =>
      match NmeaParser.parse callbacks buffer chunk st with
      | Raise e => Raise e
      | Ok (buffer1, st1, calls1) =>
          match parse_chunks callbacks buffer1 rest st1 with
          | Raise e => Raise e
          | Ok (buffer2, st2, calls2) => Ok (buffer2, st2, calls1 ++ calls2)
          end
      end
  end.


(** The epoch counter is not negative and does not pass the configured
    maximum. *)
Definition epoch_ok (c : PointPerfectClient) : Prop :=
  (0 <= epoch_count c)%Z /\
  forall e, epochs c = Some e -> (0 <= e)%Q -> (inject_Z (epoch_count c) <= e)%Q.

(** The recorded tile topic is empty or, in localized mode, the topic of
    the tile that holds the recorded position. *)
Definition tile_ok (c : PointPerfectClient) : Prop :=
  tile_topic c = EmptyString \/
  (localized c = true /\
   get_tile_topic c (lat c) (lon c) = Ok (tile_topic c)).

(** The initialization topic is absent, the initial one or the one for
    updates, and every active initialization subscription is the recorded
    topic. *)
Definition assist_ok (c : PointPerfectClient) (subs : gmap string purpose)
    : Prop :=
  (assist_now_topic c = None \/
   assist_now_topic c = Some "/pp/ubx/mga" \/
   assist_now_topic c = Some "/pp/ubx/mga/updates") /\
  forall t, subs !! t = Some AssistNow -> assist_now_topic c = Some t.

(** A method keeps a property of the client. *)
Definition client_keeps (P : PointPerfectClient -> Prop) (m : M unit) : Prop :=
  forall c c1 acts, P c -> m c = Ok (tt, c1, acts) -> P c1.

(** A method keeps a property of the client and the broker. *)
Definition keeps (I : PointPerfectClient -> gmap string purpose -> Prop)
    (m : M unit) : Prop :=
  forall c subs c1 acts,
    I c subs -> m c = Ok (tt, c1, acts) -> I c1 (deliver_all acts subs).

(** No initialization subscription is in [subs1] that is not in [subs]. *)
Definition assist_shrinks (subs1 subs : gmap string purpose) : Prop :=
  forall t, subs1 !! t = Some AssistNow -> subs !! t = Some AssistNow.

(** The payloads a list of calls writes to the receiver, in order. *)
Fixpoint writes (acts : list action) : list (list ascii) :=
  match acts with
  | [] => []
  | GnssWrite payload :: rest => payload :: writes rest
  | _ :: rest => writes rest
  end.

(** No active subscription has the given role. *)
Definition none_active (p : purpose) (subs : gmap string purpose) : Prop :=
  forall t, subs !! t <> Some p.

(** A localized client that keeps statistics and recomputes at the latest
    after two fixes, and a session of four fixes at one place. *)
Definition counting_client : PointPerfectClient :=
  fst (init (H := sample_library) "pp.services.u-blox.com" 8883 true 2
         false None 50000 (Some 2%Q) (Some 5%Z) false).

Definition counting_events : list event :=
  [ConnAck 0; Received sample_fix; Received sample_fix; Received sample_fix;
   Received sample_fix].


(** The topics whose messages [on_mqtt_message] hands to the receiver. *)
Definition forwarded (c : PointPerfectClient) (topic : string) : bool :=
  startswith ("/pp/" +:+ plan c +:+ "/") topic
  || startswith "/pp/ubx/" topic
  || (startswith "pp/ip" topic && negb (endswith "/dict" topic)).

(** The loop with another receiver object. *)
Definition set_gnss (publisher : RosPointPerfectPublisher.t) (l : reader)
    : reader :=
  {| gnss := publisher; read_buffer := read_buffer l; ubxfile := ubxfile l;
     running := running l |}.

(** A sentence as the receiver publishes it. *)
Definition nmea_message (sentence : string) : gmap string string :=
  {["sentence" := sentence]}.

Definition LF : ascii := "010"%char.

Definition idle_publisher : RosPointPerfectPublisher.t :=
  {| RosPointPerfectPublisher.nmea_buffer := None;
     RosPointPerfectPublisher.talker := [] |}.

(** The loop at its entry, with an idle receiver and no UBX file. *)
Definition sample_reader : reader :=
  loop_entry idle_publisher None sample_start.

Definition sample_sentence : string :=
  "$GPGGA,123519,4807.038,N,01131.000,E,1,08,0.9,545.4,M,46.9,M,,*47".


(** No line feed in the text; decimal digits only. *)
Definition one_line (s : string) : bool :=
  forallb (fun c => negb (byte_eqb c "010")) (list_ascii_of_string s).

Definition all_digits (s : string) : bool :=
  forallb (in_range "0" "9") (list_ascii_of_string s).

(** A callback that accepts every sentence and leaves the state alone. *)
Definition accept : @NmeaParser.callback unit := fun _ st => Ok st.

Definition CR : ascii := "013"%char.

(** ** The sentence framer: properties *)

Lemma byte_eqb_eq (a b : ascii) : byte_eqb a b = true -> a = b.
Proof.
  unfold byte_eqb, ord. intros E. apply Z.eqb_eq in E.
  apply N2Z.inj in E.
  rewrite <- (ascii_N_embedding a), <- (ascii_N_embedding b). now rewrite E.
Qed.

Lemma in_class_not_cr (c : ascii) :
  NmeaParser.in_class c = true -> negb (ord c =? 13)%Z = true.
Proof.
  destruct c as [[] [] [] [] [] [] [] []]; vm_compute; congruence.
Qed.

Lemma in_class_ascii (c : ascii) :
  NmeaParser.in_class c = true -> (ord c <? 128)%Z = true.
Proof.
  destruct c as [[] [] [] [] [] [] [] []]; vm_compute; congruence.
Qed.

Lemma frame_ok_decodes (buffer : list ascii) :
  frame_ok buffer = true ->
  decode_ascii buffer = Ok (string_of_list_ascii buffer).
Proof.
  destruct buffer as [|d rest]; [discriminate|]. cbn [frame_ok].
  intros E. apply andb_prop in E as [Ed Er].
  apply byte_eqb_eq in Ed. subst d.
  unfold decode_ascii. cbn [forallb].
  replace (forallb (fun c => (ord c <? 128)%Z) rest) with true; [reflexivity|].
  symmetry. apply forallb_forall. intros x Hx.
  apply in_class_ascii. rewrite forallb_forall in Er. now apply Er.
Qed.

Lemma frame_ok_well_delimited (buffer : list ascii) :
  frame_ok buffer = true ->
  well_delimited (string_of_list_ascii buffer) = true.
Proof.
  destruct buffer as [|d rest]; [discriminate|]. cbn [frame_ok].
  intros E. apply andb_prop in E as [Ed Er].
  cbn [string_of_list_ascii well_delimited]. rewrite Ed. cbn [andb].
  rewrite list_ascii_of_string_of_list_ascii.
  apply forallb_forall. intros x Hx. apply in_class_not_cr.
  rewrite forallb_forall in Er. now apply Er.
Qed.

Lemma frame_ok_snoc (buffer : list ascii) (byte : ascii) :
  frame_ok buffer = true -> NmeaParser.in_class byte = true ->
  frame_ok (buffer ++ [byte]) = true.
Proof.
  destruct buffer as [|d rest]; [discriminate|]. cbn [frame_ok app].
  intros E Hb. apply andb_prop in E as [Ed Er]. rewrite Ed. cbn [andb].
  rewrite forallb_app, Er. cbn. now rewrite Hb.
Qed.

Section FramerFacts.

Context {St : Type}.
Implicit Types (callbacks : list (NmeaParser.regexp * @NmeaParser.callback St)).

(** The loop over the dictionary calls every matching pattern's callback,
    in order, with the decoded buffer. *)
Lemma run_callbacks_calls callbacks : forall index buffer st st1 calls,
  NmeaParser.run_callbacks index callbacks buffer st = Ok (st1, calls) ->
  calls = map (fun i => NmeaParser.Call i (string_of_list_ascii buffer))
              (matching index callbacks buffer).
Proof.
  induction callbacks as [|[re cb] rest IH]; intros index buffer st st1 calls.
  - cbn. intros E. now inversion E.
  - cbn [NmeaParser.run_callbacks matching].
    destruct (re buffer).
    + unfold decode_ascii.
      destruct (forallb _ buffer); [|discriminate].
      destruct (cb _ st) as [st2|]; [|discriminate].
      destruct (NmeaParser.run_callbacks (S index) rest buffer st2)
        as [[st3 calls3]|] eqn:E3; [|discriminate].
      intros E. inversion E; subst. cbn [map]. f_equal. eauto.
    + apply IH.
Qed.

(** A carriage return dispatches only a frame whose checksum is valid. *)
Lemma on_cr_checksum callbacks buffer st :
  checksum_valid buffer = false ->
  NmeaParser.on_cr callbacks buffer st = Ok (st, []).
Proof.
  unfold checksum_valid, NmeaParser.on_cr.
  destruct (3 <? Z.of_nat (length buffer))%Z; [|reflexivity].
  destruct (NmeaParser.tail3 buffer) as [[[m h] l]|]; [|reflexivity].
  destruct (byte_eqb m "*"); [|reflexivity].
  cbn [andb]. now intros ->.
Qed.

Lemma on_cr_valid callbacks buffer st :
  checksum_valid buffer = true ->
  NmeaParser.on_cr callbacks buffer st
  = NmeaParser.run_callbacks 0 callbacks buffer st.
Proof.
  unfold checksum_valid, NmeaParser.on_cr.
  destruct (3 <? Z.of_nat (length buffer))%Z; [|discriminate].
  destruct (NmeaParser.tail3 buffer) as [[[m h] l]|]; [|discriminate].
  destruct (byte_eqb m "*"); [|discriminate].
  cbn [andb]. now intros ->.
Qed.

Lemma on_cr_calls callbacks buffer st st1 calls :
  NmeaParser.on_cr callbacks buffer st = Ok (st1, calls) ->
  calls = [] \/
  (checksum_valid buffer = true /\
   calls = map (fun i => NmeaParser.Call i (string_of_list_ascii buffer))
               (matching 0 callbacks buffer)).
Proof.
  destruct (checksum_valid buffer) eqn:V.
  - rewrite on_cr_valid by assumption. intros E. right. split; [reflexivity|].
    eapply run_callbacks_calls; eauto.
  - rewrite on_cr_checksum by assumption. intros E. left. now inversion E.
Qed.

(** Every text handed to a callback is a whole frame whose checksum the
    framer has found valid. *)
Lemma parse_calls_checked callbacks : forall data buffer st buffer1 st1 calls,
  frame_opt_ok buffer = true ->
  NmeaParser.parse callbacks buffer data st = Ok (buffer1, st1, calls) ->
  Forall dispatched_frame calls.
Proof.
  induction data as [|byte rest IH]; intros buffer st buffer1 st1 calls Hb.
  - cbn. intros E. inversion E. constructor.
  - cbn [NmeaParser.parse].
    destruct (NmeaParser.parse_byte callbacks buffer byte st)
      as [[[b2 st2] calls2]|] eqn:E2; [|discriminate].
    destruct (NmeaParser.parse callbacks b2 rest st2)
      as [[[b3 st3] calls3]|] eqn:E3; [|discriminate].
    intros E. inversion E; subst. clear E.
    unfold NmeaParser.parse_byte in E2.
    destruct (byte_eqb byte "$") eqn:Ed.
    { inversion E2; subst. cbn [app]. eapply IH; [|eassumption].
      cbn. now rewrite Ed. }
    destruct buffer as [buf|].
    2:{ inversion E2; subst. cbn [app]. eapply IH; [|eassumption]. reflexivity. }
    destruct (NmeaParser.in_class byte) eqn:Ec.
    { inversion E2; subst. cbn [app]. eapply IH; [|eassumption].
      cbn [frame_opt_ok] in *. now apply frame_ok_snoc. }
    destruct (ord byte =? 13)%Z.
    2:{ inversion E2; subst. cbn [app]. eapply IH; [|eassumption]. reflexivity. }
    destruct (NmeaParser.on_cr callbacks buf st) as [[st4 calls4]|] eqn:E4;
      [|discriminate].
    inversion E2; subst. apply Forall_app. split.
    + apply on_cr_calls in E4 as [->|[V ->]]; [constructor|].
      apply Forall_forall. intros c Hc. apply list_elem_of_In in Hc.
      apply in_map_iff in Hc as [i [<- _]].
      exists buf. cbn [call_data]. auto.
    + eapply IH; [|eassumption]. reflexivity.
Qed.

(** Every text handed to a callback starts with ['$'] and has no
    carriage return. *)
Lemma parse_calls_delimited callbacks data buffer st buffer1 st1 calls :
  frame_opt_ok buffer = true ->
  NmeaParser.parse callbacks buffer data st = Ok (buffer1, st1, calls) ->
  Forall (fun c => well_delimited (call_data c) = true) calls.
Proof.
  intros Hb E. eapply Forall_impl; [eapply parse_calls_checked; eauto|].
  intros c [buf [Hf [_ ->]]]. now apply frame_ok_well_delimited.
Qed.

(** With callbacks that return, the framer returns on every byte stream. *)
Lemma run_callbacks_total callbacks : forall index buffer st,
  frame_ok buffer = true ->
  Forall (fun rc => forall data s, is_ok (snd rc data s) = true) callbacks ->
  is_ok (NmeaParser.run_callbacks index callbacks buffer st) = true.
Proof.
  induction callbacks as [|[re cb] rest IH]; intros index buffer st Hb Hall.
  - reflexivity.
  - cbn [NmeaParser.run_callbacks]. inversion Hall as [|x l Hcb Hrest]; subst.
    destruct (re buffer); [|now apply IH].
    rewrite frame_ok_decodes by assumption.
    cbn [snd] in Hcb.
    specialize (Hcb (string_of_list_ascii buffer) st).
    destruct (cb _ st) as [st2|]; [|discriminate].
    specialize (IH (S index) buffer st2 Hb Hrest).
    now destruct (NmeaParser.run_callbacks (S index) rest buffer st2) as [[? ?]|].
Qed.

Lemma parse_total callbacks : forall data buffer st,
  frame_opt_ok buffer = true ->
  Forall (fun rc => forall text s, is_ok (snd rc text s) = true) callbacks ->
  is_ok (NmeaParser.parse callbacks buffer data st) = true.
Proof.
  induction data as [|byte rest IH]; intros buffer st Hb Hall; [reflexivity|].
  cbn [NmeaParser.parse]. unfold NmeaParser.parse_byte.
  destruct (byte_eqb byte "$") eqn:Ed.
  { specialize (IH (Some [byte]) st). cbn in IH. rewrite Ed in IH.
    specialize (IH eq_refl Hall).
    now destruct (NmeaParser.parse callbacks (Some [byte]) rest st) as [[[? ?] ?]|]. }
  destruct buffer as [buf|].
  2:{ specialize (IH None st eq_refl Hall).
      now destruct (NmeaParser.parse callbacks None rest st) as [[[? ?] ?]|]. }
  cbn [frame_opt_ok] in Hb.
  destruct (NmeaParser.in_class byte) eqn:Ec.
  { specialize (IH (Some (buf ++ [byte])) st (frame_ok_snoc _ _ Hb Ec) Hall).
    now destruct (NmeaParser.parse callbacks _ rest st) as [[[? ?] ?]|]. }
  destruct (ord byte =? 13)%Z.
  2:{ specialize (IH None st eq_refl Hall).
      now destruct (NmeaParser.parse callbacks None rest st) as [[[? ?] ?]|]. }
  assert (Hcr : is_ok (NmeaParser.on_cr callbacks buf st) = true).
  { destruct (checksum_valid buf) eqn:V.
    - rewrite on_cr_valid by assumption. now apply run_callbacks_total.
    - now rewrite on_cr_checksum. }
  destruct (NmeaParser.on_cr callbacks buf st) as [[st4 calls4]|]; [|discriminate].
  specialize (IH None st4 eq_refl Hall).
  now destruct (NmeaParser.parse callbacks None rest st4) as [[[? ?] ?]|].
Qed.

End FramerFacts.

(** The checksum the framer computes is never negative, so the value [-1]
    that stands for a field [int] rejects matches no frame. *)
Lemma xor_bytes_nonneg (body : list ascii) : (0 <= NmeaParser.xor_bytes body)%Z.
Proof.
  unfold NmeaParser.xor_bytes.
  assert (G : forall l acc, (0 <= acc)%Z ->
            (0 <= fold_left (fun chksum i => Z.lxor chksum (ord i)) l acc)%Z).
  { induction l as [|x l IH]; intros acc Ha; [exact Ha|].
    cbn [fold_left]. apply IH. apply Z.lxor_nonneg.
    unfold ord. split; intros _; [apply N2Z.is_nonneg | exact Ha]. }
  apply G. lia.
Qed.

Lemma rejected_checksum_never_matches (body : list ascii) (h l : ascii) (e : exn) :
  int_hex2 h l = Raise e ->
  (NmeaParser.xor_bytes body =? NmeaParser.chksum_received h l)%Z = false.
Proof.
  intros E. unfold NmeaParser.chksum_received. rewrite E.
  apply Z.eqb_neq. pose proof (xor_bytes_nonneg body). lia.
Qed.

(** C1 (the code departs from the claim).  The claim: a frame whose
    checksum field is not the two-digit hexadecimal exclusive-or of its
    payload is never dispatched, and a field that is not valid hex can never
    match.  The framer reads the field with [int(_, 16)], which also takes a
    sign: in the frame [$GPGGA,K1*-0] the field [-0] is not two hex digits,
    yet it is read as 0, which is the exclusive-or of the payload [GPGGA,K1],
    and the frame is handed to the callback registered for GGA sentences. *)
Theorem C1_signed_zero_field_is_dispatched :
  hex_digit "-" = None /\
  int_hex2 "-" "0" = Ok 0%Z /\
  NmeaParser.xor_bytes (list_ascii_of_string "GPGGA,K1") = 0%Z /\
  NmeaParser.parse [(NmeaParser.re_gga, accept)] None
    (list_ascii_of_string "$GPGGA,K1*-0" ++ [CR]) tt
  = Ok (None, tt, [NmeaParser.Call 0 "$GPGGA,K1*-0"]).
Proof. repeat split; vm_compute; reflexivity. Qed.

(** C8, as the code has it.  On a frame with a valid checksum the framer
    walks the registered patterns in their order of registration and calls
    the callback of every pattern that matches, not only of the first; each
    call receives the decoded frame.  Whatever the byte stream, every text a
    callback receives starts with ['$'] and holds no carriage return. *)
Theorem C8_every_matching_callback_runs {St : Type}
    (callbacks : list (NmeaParser.regexp * @NmeaParser.callback St)) :
  (forall buffer st st1 calls,
     checksum_valid buffer = true ->
     NmeaParser.on_cr callbacks buffer st = Ok (st1, calls) ->
     calls = map (fun i => NmeaParser.Call i (string_of_list_ascii buffer))
                 (matching 0 callbacks buffer)) /\
  (forall data buffer st buffer1 st1 calls,
     frame_opt_ok buffer = true ->
     NmeaParser.parse callbacks buffer data st = Ok (buffer1, st1, calls) ->
     Forall (fun c => well_delimited (call_data c) = true) calls).
Proof.
  split.
  - intros buffer st st1 calls V E. rewrite on_cr_valid in E by assumption.
    eapply run_callbacks_calls; eauto.
  - intros. eapply parse_calls_delimited; eauto.
Qed.

(** C8, the claim as stated fails: with two registered patterns that both
    match, one frame with a valid checksum reaches both callbacks. *)
Lemma C8_counterexample :
  NmeaParser.parse
    [(NmeaParser.re_gga, accept); ((fun _ => true) : NmeaParser.regexp, accept)]
    None
    (list_ascii_of_string
       "$GPGGA,123519,4807.038,N,01131.000,E,1,08,0.9,545.4,M,46.9,M,,*47"
     ++ [CR]) tt
  = Ok (None, tt,
        [NmeaParser.Call 0
           "$GPGGA,123519,4807.038,N,01131.000,E,1,08,0.9,545.4,M,46.9,M,,*47";
         NmeaParser.Call 1
           "$GPGGA,123519,4807.038,N,01131.000,E,1,08,0.9,545.4,M,46.9,M,,*47"]).
Proof. vm_compute. reflexivity. Qed.

Lemma C8_witness :
  let frame :=
    list_ascii_of_string
      "$GPGGA,123519,4807.038,N,01131.000,E,1,08,0.9,545.4,M,46.9,M,,*47" in
  let cbs := [(NmeaParser.re_gga, accept);
              ((fun _ => true) : NmeaParser.regexp, accept)] in
  checksum_valid frame = true /\
  NmeaParser.on_cr cbs frame tt
  = Ok (tt, map (fun i => NmeaParser.Call i (string_of_list_ascii frame))
                (matching 0 cbs frame)).
Proof.
  cbv zeta. split; [vm_compute; reflexivity|].
  pose proof (proj1 (C8_every_matching_callback_runs
                       [(NmeaParser.re_gga, accept);
                        ((fun _ => true) : NmeaParser.regexp, accept)])) as P.
  match goal with |- ?l = _ => destruct l as [[[] calls]|] eqn:E end.
  - f_equal. f_equal. eapply P; [|exact E]. vm_compute. reflexivity.
  - vm_compute in E. discriminate.
Defined.

(** ** The fix-report decoder: properties *)

Lemma append_cons (x : ascii) (a b : string) :
  String x a +:+ b = String x (a +:+ b).
Proof. reflexivity. Qed.

Lemma append_nil_r (a : string) : a +:+ EmptyString = a.
Proof. induction a as [|x a IH]; [reflexivity|]. now rewrite append_cons, IH. Qed.

Lemma string_app_assoc (a b c : string) : (a +:+ b) +:+ c = a +:+ (b +:+ c).
Proof.
  induction a as [|x a IH]; [reflexivity|]. now rewrite !append_cons, IH.
Qed.










Lemma truthy_nonempty (c : ascii) (s : string) : truthy (String c s) = true.
Proof. reflexivity. Qed.









(** ** Nearest-node search: properties *)

Lemma Qltb_lt (a b : Q) : Qltb a b = true <-> (a < b)%Q.
Proof.
  unfold Qltb. rewrite negb_true_iff. split.
  - intros E. apply Qnot_le_lt. intros L. apply Qle_bool_iff in L. congruence.
  - intros L. destruct (Qle_bool b a) eqn:E; [|reflexivity].
    apply Qle_bool_iff in E. exfalso. exact (Qlt_not_le _ _ L E).
Qed.

Lemma Qltb_ge (a b : Q) : Qltb a b = false <-> (b <= a)%Q.
Proof.
  unfold Qltb. rewrite negb_false_iff. apply Qle_bool_iff.
Qed.



Section Search.

Context `{Library}.






Lemma nearest_empty (la lo : Q) : nearest la lo [] = Raise UnboundLocalError.
Proof. reflexivity. Qed.


End Search.

Section SearchClaims.

Context `{Library}.



(** [select_node], one outcome at a time. *)
Lemma select_node_eq (c : PointPerfectClient) :
  select_node c =
  match tile_dict c with
  | None => Ok (tt, c, [])
  | Some d =>
      match nearest (lat c) (lon c) (nodes d) with
      | Raise e => Raise e
      | Ok node =>
          match (if localized c then Ok node
                 else region_lookup REGION_MAPPING node) with
          | Raise e => Raise e
          | Ok name =>
              if negb (String.eqb (mqtt_server c) (endpoint d)) then
                Ok (tt,
                    set_spartn_topic (nodeprefix d +:+ name)
                      (set_new_server (Some (endpoint d)) c),
                    [Disconnect])
              else
                Ok (tt,
                    set_spartn_topic (nodeprefix d +:+ name) c,
                    (if truthy (spartn_topic c)
                     then [Unsubscribe (spartn_topic c)] else [])
                    ++ [Subscribe Correction (nodeprefix d +:+ name) 0])
          end
      end
  end.
Proof.
  unfold select_node, bind, get, lift, modify, emit, ret.
  destruct (tile_dict c) as [d|]; [|reflexivity].
  destruct (nearest (lat c) (lon c) (nodes d)) as [node|]; [|reflexivity].
  destruct (localized c).
  - destruct (negb (String.eqb (mqtt_server c) (endpoint d))); [reflexivity|].
    destruct (truthy (spartn_topic c)); reflexivity.
  - destruct (region_lookup REGION_MAPPING node) as [name|]; [|reflexivity].
    destruct (negb (String.eqb (mqtt_server c) (endpoint d))); [reflexivity|].
    destruct (truthy (spartn_topic c)); reflexivity.
Qed.



End SearchClaims.



(** ** The session controller: properties *)

Section Controller.

Context `{Library}.


(** [process_position], one outcome at a time. *)
Lemma process_position_eq (la lo : Q) (c : PointPerfectClient) :
  process_position la lo c =
  if localized c then
    if must_recompute la lo c then
      match get_tile_topic c la lo with
      | Raise e => Raise e
      | Ok new_tile_topic =>
          if negb (String.eqb new_tile_topic (tile_topic c)) then
            Ok (tt, set_tile_topic new_tile_topic (recorded_position la lo c),
                (if truthy (tile_topic c)
                 then [Unsubscribe (tile_topic c)] else [])
                ++ [Subscribe Tile new_tile_topic 1])
          else select_node (recorded_position la lo c)
      end
    else Ok (tt, set_epoch_count (epoch_count c + 1) c, [])
  else
    if negb (truthy (spartn_topic c)) then
      select_node (set_tile_dict (Some (region_dict c)) (set_position la lo c))
    else Ok (tt, c, []).
Proof.
  unfold process_position, bind, get, lift, modify, emit, ret.
  fold (must_recompute la lo c).
  destruct (localized c).
  - destruct (must_recompute la lo c); [|reflexivity].
    destruct (get_tile_topic c la lo) as [new|]; [|reflexivity].
    destruct (negb (String.eqb new (tile_topic c))).
    + destruct (truthy (tile_topic c)); reflexivity.
    + fold (recorded_position la lo c).
      now destruct (select_node (recorded_position la lo c)) as [[[[] c3] acts]|].
  - destruct (negb (truthy (spartn_topic c))); [|reflexivity].
    fold (region_dict c).
    now destruct (select_node _) as [[[[] c3] acts]|].
Qed.

(** [on_quality], one outcome at a time. *)
Lemma on_quality_eq (quality : Z) (la lo : Q) (c : PointPerfectClient) :
  on_quality quality la lo c =
  if ((quality =? 0) || (quality =? 6))%Z then
    if truthy_opt (assist_now_topic c) then Ok (tt, c, [])
    else Ok (tt, set_assist_now_topic (Some "/pp/ubx/mga") c,
             [Subscribe AssistNow "/pp/ubx/mga" 1])
  else
    match process_position la lo (assist_cleared c) with
    | Raise e => Raise e
    | Ok (u, c2, acts) => Ok (u, c2, assist_unsubscribed c ++ acts)
    end.
Proof.
  unfold on_quality, bind, get, modify, emit, ret, assist_cleared,
    assist_unsubscribed, truthy_opt.
  destruct ((quality =? 0) || (quality =? 6))%Z.
  - destruct (assist_now_topic c) as [t|]; [destruct (truthy t)|]; reflexivity.
  - destruct (assist_now_topic c) as [t|].
    + destruct (truthy t && negb (assist_now c)); cbn [app];
        now destruct (process_position la lo _) as [[[[] c3] acts]|].
    + cbn [andb app].
      now destruct (process_position la lo c) as [[[[] c3] acts]|].
Qed.

Lemma select_node_no_assist (c c1 : PointPerfectClient) (acts : list action) :
  select_node c = Ok (tt, c1, acts) -> no_assist_subscription acts.
Proof.
  rewrite select_node_eq.
  destruct (tile_dict c) as [d|]; [|intros [= <- <-]; intros t q []].
  destruct (nearest _ _ _) as [node|]; [|discriminate].
  destruct (if localized c then _ else _) as [name|]; [|discriminate].
  destruct (negb _).
  - intros [= <- <-] t q [E|[]]. discriminate.
  - intros [= <- <-] t q I. apply in_app_or in I as [I|[E|[]]]; [|discriminate].
    destruct (truthy (spartn_topic c)); [destruct I as [E|[]]; discriminate | destruct I].
Qed.

Lemma process_position_no_assist (la lo : Q) (c c1 : PointPerfectClient)
    (acts : list action) :
  process_position la lo c = Ok (tt, c1, acts) -> no_assist_subscription acts.
Proof.
  rewrite process_position_eq.
  destruct (localized c).
  - destruct (must_recompute la lo c); [|intros [= <- <-]; intros t q []].
    destruct (get_tile_topic c la lo) as [new|]; [|discriminate].
    destruct (negb _); [|apply select_node_no_assist].
    intros [= <- <-] t q I. apply in_app_or in I as [I|[E|[]]]; [|discriminate].
    destruct (truthy (tile_topic c)); [destruct I as [E|[]]; discriminate | destruct I].
  - destruct (negb _); [apply select_node_no_assist|].
    intros [= <- <-]; intros t q [].
Qed.

(** C4.  After a fix report is decoded (and counted, when statistics are
    kept), quality 0 or 6 subscribes to [/pp/ubx/mga] with QoS 1 when no
    initialization topic is active, does nothing otherwise, and leaves the
    tracked position alone.  Any other quality first unsubscribes and
    clears an active initialization topic, unless AssistNow is forced, and
    then processes the position; it never subscribes to an initialization
    topic. *)
Theorem C4_quality_codes (sentence : string) (c c1 : PointPerfectClient)
    (quality : Z) (la lo : Q) :
  decode_gga sentence = Ok (quality, la, lo) ->
  update_stats quality c = Ok (tt, c1, []) ->
  (quality = 0%Z \/ quality = 6%Z ->
   handle_nmea_gga sentence c =
   (if truthy_opt (assist_now_topic c1) then Ok (tt, c1, [])
    else Ok (tt, set_assist_now_topic (Some "/pp/ubx/mga") c1,
             [Subscribe AssistNow "/pp/ubx/mga" 1])) /\
   forall c2 acts,
     handle_nmea_gga sentence c = Ok (tt, c2, acts) ->
     lat c2 = lat c /\ lon c2 = lon c) /\
  (quality <> 0%Z -> quality <> 6%Z ->
   handle_nmea_gga sentence c =
   match process_position la lo (assist_cleared c1) with
   | Raise e => Raise e
   | Ok (u, c2, acts) => Ok (u, c2, assist_unsubscribed c1 ++ acts)
   end /\
   (assist_now c1 = false ->
    truthy_opt (assist_now_topic (assist_cleared c1)) = false) /\
   forall c2 acts,
     handle_nmea_gga sentence c = Ok (tt, c2, acts) ->
     no_assist_subscription acts).
Proof.
  intros Hd Hs.
  assert (Hpos : lat c1 = lat c /\ lon c1 = lon c).
  { revert Hs. unfold update_stats, bind, get, lift, modify, ret.
    destruct (stats c) as [s|]; [|intros [= <-]; auto].
    destruct (count_epoch quality s); [|discriminate].
    intros [= <-]. auto. }
  assert (Hh : handle_nmea_gga sentence c = on_quality quality la lo c1).
  { unfold handle_nmea_gga, bind at 1, lift. rewrite Hd.
    unfold bind. rewrite Hs. cbn [app].
    now destruct (on_quality quality la lo c1) as [[[[] c3] acts]|]. }
  rewrite Hh, on_quality_eq. split.
  - intros Hq.
    assert (((quality =? 0) || (quality =? 6))%Z = true) as ->.
    { destruct Hq as [-> | ->]; reflexivity. }
    split; [reflexivity|]. intros c2 acts.
    destruct (truthy_opt (assist_now_topic c1)); intros [= <- <-]; exact Hpos.
  - intros H0 H6.
    assert (((quality =? 0) || (quality =? 6))%Z = false) as ->.
    { apply orb_false_iff. split; now apply Z.eqb_neq. }
    split; [reflexivity|]. split.
    + intros Hf. unfold assist_cleared. rewrite Hf. cbn [negb].
      rewrite andb_true_r.
      destruct (truthy_opt (assist_now_topic c1)) eqn:Et; [reflexivity | exact Et].
    + intros c2 acts.
      destruct (process_position la lo (assist_cleared c1))
        as [[[[] c3] acts3]|] eqn:Ep; [|discriminate].
      intros [= <- <-] t q I. apply in_app_or in I as [I|I].
      * unfold assist_unsubscribed in I.
        destruct (assist_now_topic c1) as [t1|]; [|destruct I].
        destruct (truthy t1 && negb (assist_now c1));
          [destruct I as [E|[]]; discriminate | destruct I].
      * eapply process_position_no_assist; eauto.
Qed.

(** *** One tile and one correction subscription *)

Lemma consistent_at_most_one (c : PointPerfectClient) subs :
  consistent c subs -> at_most_one Tile subs /\ at_most_one Correction subs.
Proof.
  intros [Ht Hc]. split; intros t1 t2 H1 H2.
  - destruct (Ht _ H1) as [-> _]. now destruct (Ht _ H2) as [-> _].
  - destruct (Hc _ H1) as [-> _]. now destruct (Hc _ H2) as [-> _].
Qed.

Lemma shrinks_refl subs : shrinks subs subs.
Proof. intros t p _ E. exact E. Qed.

Lemma shrinks_trans a b c : shrinks a b -> shrinks b c -> shrinks a c.
Proof. intros Hab Hbc t p Hp E. eauto. Qed.

Lemma shrinks_delete t subs : shrinks (delete t subs) subs.
Proof. intros t1 p _ E. apply lookup_delete_Some in E. tauto. Qed.

Lemma shrinks_insert t p subs :
  p <> Tile -> p <> Correction -> shrinks (<[t := p]> subs) subs.
Proof.
  intros N1 N2 t1 p1 Hp E. apply lookup_insert_Some in E as [[_ <-]|[_ E]].
  - destruct Hp; congruence.
  - exact E.
Qed.

Lemma shrinks_empty subs : shrinks ∅ subs.
Proof. intros t p _ E. rewrite lookup_empty in E. discriminate. Qed.

Lemma shrinks_key_topics (topics : list (string * Z)) : forall subs,
  shrinks (deliver (SubscribeList topics) subs) subs.
Proof.
  cbn [deliver]. induction topics as [|tq l IH]; intros subs; cbn [fold_left].
  - apply shrinks_refl.
  - eapply shrinks_trans; [apply IH|]. apply shrinks_insert; discriminate.
Qed.

Lemma consistent_shrinks (c c1 : PointPerfectClient) subs subs1 :
  tile_topic c1 = tile_topic c -> spartn_topic c1 = spartn_topic c ->
  shrinks subs1 subs -> consistent c subs -> consistent c1 subs1.
Proof.
  intros E1 E2 S [Ht Hc]. unfold consistent. rewrite E1, E2. split; intros t E.
  - apply Ht. apply S; auto.
  - apply Hc. apply S; auto.
Qed.

Lemma consistent_empty (c : PointPerfectClient) : consistent c ∅.
Proof. split; intros t E; rewrite lookup_empty in E; discriminate. Qed.

Lemma consistent_new_tile (c c1 : PointPerfectClient) subs subs1 new :
  tile_topic c1 = new -> spartn_topic c1 = spartn_topic c ->
  truthy new = true ->
  shrinks subs1 subs ->
  (truthy (tile_topic c) = true -> subs1 !! tile_topic c = None) ->
  consistent c subs -> consistent c1 (<[new := Tile]> subs1).
Proof.
  intros E1 E2 Tn S Hold [Ht Hc]. unfold consistent. rewrite E1, E2.
  split; intros t E; apply lookup_insert_Some in E as [[<- E]|[N E]].
  - auto.
  - exfalso. pose proof (S _ _ (or_introl eq_refl) E) as E0.
    destruct (Ht _ E0) as [-> T]. rewrite (Hold T) in E. discriminate.
  - discriminate.
  - apply Hc. apply S; auto.
Qed.

Lemma consistent_new_correction (c c1 : PointPerfectClient) subs subs1 new :
  spartn_topic c1 = new -> tile_topic c1 = tile_topic c ->
  truthy new = true ->
  shrinks subs1 subs ->
  (truthy (spartn_topic c) = true -> subs1 !! spartn_topic c = None) ->
  consistent c subs -> consistent c1 (<[new := Correction]> subs1).
Proof.
  intros E1 E2 Tn S Hold [Ht Hc]. unfold consistent. rewrite E1, E2.
  split; intros t E; apply lookup_insert_Some in E as [[<- E]|[N E]].
  - discriminate.
  - apply Ht. apply S; auto.
  - auto.
  - exfalso. pose proof (S _ _ (or_intror eq_refl) E) as E0.
    destruct (Hc _ E0) as [-> T]. rewrite (Hold T) in E. discriminate.
Qed.

Lemma truthy_append_r (a b : string) : truthy b = true -> truthy (a +:+ b) = true.
Proof.
  destruct a as [|x a]; [auto | reflexivity].
Qed.

Lemma truthy_append_l (a b : string) : truthy a = true -> truthy (a +:+ b) = true.
Proof. destruct a as [|x a]; [discriminate | reflexivity]. Qed.

(** The loop binds only names whose coordinates it could read. *)
Lemma nearest_loop_parsed rla rlo f (l : list string) : forall mn nn mn1 nn1,
  nearest_loop rla rlo f l mn nn = Ok (mn1, nn1) ->
  (forall n, nn = Some n -> is_ok (node_coordinates n) = true) ->
  forall n, nn1 = Some n -> is_ok (node_coordinates n) = true.
Proof.
  induction l as [|x l IH]; intros mn nn mn1 nn1; cbn [nearest_loop].
  - intros [= <- <-]. auto.
  - destruct (node_coordinates x) as [[nla nlo]|] eqn:Ex; [|discriminate].
    cbn [rbind]. destruct (below _ mn); intros E Hn; eapply IH; eauto.
    intros n [= <-]. now rewrite Ex.
Qed.

Lemma nearest_truthy (la lo : Q) (l : list string) (n : string) :
  nearest la lo l = Ok n -> truthy n = true.
Proof.
  unfold nearest.
  destruct (nearest_loop _ _ _ l None None) as [[mn nn]|] eqn:E; [|discriminate].
  cbn [rbind]. destruct nn as [m|]; [|discriminate]. intros [= <-].
  pose proof (nearest_loop_parsed _ _ _ _ _ _ _ _ E) as P.
  assert (Hm : is_ok (node_coordinates m) = true).
  { apply P; [discriminate | reflexivity]. }
  destruct m; [discriminate | reflexivity].
Qed.

Lemma region_truthy (node name : string) :
  region_lookup REGION_MAPPING node = Ok name -> truthy name = true.
Proof.
  cbn [region_lookup REGION_MAPPING].
  repeat (destruct (String.eqb _ node); [intros [= <-]; reflexivity|]).
  discriminate.
Qed.

Lemma select_node_preserves : preserves select_node.
Proof.
  intros c subs c1 acts Hc. rewrite select_node_eq.
  destruct (tile_dict c) as [d|]; [|intros [= <- <-]; exact Hc].
  destruct (nearest _ _ _) as [node|] eqn:En; [|discriminate].
  apply nearest_truthy in En.
  destruct (if localized c then Ok node else region_lookup REGION_MAPPING node)
    as [name|] eqn:Er; [|discriminate].
  assert (Tn : truthy name = true).
  { destruct (localized c); [now injection Er as <-|].
    eapply region_truthy; eauto. }
  destruct (negb _).
  - intros [= <- <-]. cbn. apply consistent_empty.
  - intros [= <- <-].
    destruct (truthy (spartn_topic c)) eqn:Ts; cbn.
    + eapply (consistent_new_correction c _ subs); [reflexivity|reflexivity|
        now apply truthy_append_r|apply shrinks_delete| |exact Hc].
      intros _. apply lookup_delete_eq.
    + eapply (consistent_new_correction c _ subs); [reflexivity|reflexivity|
        now apply truthy_append_r|apply shrinks_refl| |exact Hc].
      congruence.
Qed.

Lemma get_tile_topic_truthy (c : PointPerfectClient) (la lo : Q) (t : string) :
  get_tile_topic c la lo = Ok t -> truthy t = true.
Proof.
  unfold get_tile_topic. destruct (tile_delta (tile_level c)); [|discriminate].
  cbn [rbind]. intros [= <-]. now apply truthy_append_l.
Qed.

Lemma process_position_preserves (la lo : Q) : preserves (process_position la lo).
Proof.
  intros c subs c1 acts Hc. rewrite process_position_eq.
  destruct (localized c).
  - destruct (must_recompute la lo c).
    2:{ intros [= <- <-]. cbn.
        eapply (consistent_shrinks c _ subs); [| |apply shrinks_refl|exact Hc]; reflexivity. }
    destruct (get_tile_topic c la lo) as [new|] eqn:Eg; [|discriminate].
    apply get_tile_topic_truthy in Eg.
    destruct (negb _).
    + intros [= <- <-].
      destruct (truthy (tile_topic c)) eqn:Ts; cbn.
      * eapply (consistent_new_tile c _ subs); [reflexivity|reflexivity|exact Eg|
          apply shrinks_delete| |exact Hc].
        intros _. apply lookup_delete_eq.
      * eapply (consistent_new_tile c _ subs); [reflexivity|reflexivity|exact Eg|
          apply shrinks_refl| |exact Hc].
        congruence.
    + apply select_node_preserves.
      eapply (consistent_shrinks c _ subs); [| |apply shrinks_refl|exact Hc]; reflexivity.
  - destruct (negb _).
    + apply select_node_preserves.
      eapply (consistent_shrinks c _ subs); [| |apply shrinks_refl|exact Hc]; reflexivity.
    + intros [= <- <-]. exact Hc.
Qed.

Lemma deliver_all_app (a b : list action) subs :
  deliver_all (a ++ b) subs = deliver_all b (deliver_all a subs).
Proof. apply fold_left_app. Qed.

Lemma on_quality_preserves (quality : Z) (la lo : Q) :
  preserves (on_quality quality la lo).
Proof.
  intros c subs c1 acts Hc. rewrite on_quality_eq.
  destruct ((quality =? 0) || (quality =? 6))%Z.
  - destruct (truthy_opt (assist_now_topic c)); intros [= <- <-]; [exact Hc|].
    cbn. eapply (consistent_shrinks c _ subs); [| |apply shrinks_insert|exact Hc];
      first [reflexivity | discriminate].
  - destruct (process_position la lo (assist_cleared c))
      as [[[[] c3] acts3]|] eqn:Ep; [|discriminate].
    intros [= <- <-]. rewrite deliver_all_app.
    eapply process_position_preserves; [|exact Ep].
    unfold assist_cleared, assist_unsubscribed, truthy_opt.
    destruct (assist_now_topic c) as [t|]; [|exact Hc].
    destruct (truthy t && negb (assist_now c)); [|exact Hc].
    cbn. eapply (consistent_shrinks c _ subs); [| |apply shrinks_delete|exact Hc]; reflexivity.
Qed.

Lemma handle_nmea_gga_preserves (sentence : string) :
  preserves (handle_nmea_gga sentence).
Proof.
  intros c subs c1 acts Hc. unfold handle_nmea_gga, bind at 1, lift.
  destruct (decode_gga sentence) as [[[quality la] lo]|]; [|discriminate].
  unfold bind.
  destruct (update_stats quality c) as [[[[] c2] acts2]|] eqn:Es; [|discriminate].
  destruct (on_quality quality la lo c2) as [[[[] c3] acts3]|] eqn:Eq; [|discriminate].
  intros [= <- <-]. cbn [app]. rewrite deliver_all_app.
  eapply on_quality_preserves; [|exact Eq].
  revert Es. unfold update_stats, bind, get, lift, modify, ret.
  destruct (stats c) as [s|]; [|intros [= <- <-]; exact Hc].
  destruct (count_epoch quality s); [|discriminate].
  intros [= <- <-]. cbn.
  eapply (consistent_shrinks c _ subs); [| |apply shrinks_refl|exact Hc]; reflexivity.
Qed.

Lemma consistent_same (c c1 : PointPerfectClient) subs :
  tile_topic c1 = tile_topic c -> spartn_topic c1 = spartn_topic c ->
  consistent c subs -> consistent c1 subs.
Proof. intros E1 E2. apply consistent_shrinks; auto using shrinks_refl. Qed.

Lemma consistent_insert_other (c : PointPerfectClient) subs t p :
  p <> Tile -> p <> Correction ->
  consistent c subs -> consistent c (<[t := p]> subs).
Proof.
  intros N1 N2. apply consistent_shrinks; auto using shrinks_insert.
Qed.

Lemma consistent_delete (c : PointPerfectClient) subs t :
  consistent c subs -> consistent c (delete t subs).
Proof. apply consistent_shrinks; auto using shrinks_delete. Qed.

Lemma consistent_key_topics (c : PointPerfectClient)
    (topics : list (string * Z)) subs :
  consistent c subs ->
  consistent c (fold_left (fun m tq => <[fst tq := KeyTopic]> m) topics subs).
Proof.
  apply consistent_shrinks; auto. apply (shrinks_key_topics topics).
Qed.

Lemma consistent_subscribe_recorded (c : PointPerfectClient) subs :
  truthy (spartn_topic c) = true ->
  consistent c subs -> consistent c (<[spartn_topic c := Correction]> subs).
Proof.
  intros Ts [Ht Hcor]. split; intros t E;
    apply lookup_insert_Some in E as [[<- E]|[N E]]; auto; discriminate.
Qed.

Lemma on_mqtt_connect_preserves (rc : Z) : preserves (on_mqtt_connect rc).
Proof.
  intros c subs c1 acts Hc.
  unfold on_mqtt_connect, bind, get, modify, emit, ret.
  destruct (rc =? 0)%Z; [|intros [= <- <-]; exact Hc].
  cbn [set_connected mqtt_topics spartn_topic assist_now_topic].
  destruct (mqtt_topics c) as [|tq l] eqn:Em;
    destruct (truthy (spartn_topic c)) eqn:Ts;
    destruct (assist_now_topic c) as [t|]; try destruct (truthy t);
    intros [= <- <-];
    cbn [app deliver_all fold_left deliver];
    apply (consistent_same c); try reflexivity;
    repeat first
      [ exact Hc
      | apply consistent_insert_other; [discriminate|discriminate|]
      | apply consistent_subscribe_recorded; [exact Ts|]
      | apply consistent_key_topics ].
Qed.

Lemma on_mqtt_disconnect_actions (rc : Z) (c c1 : PointPerfectClient)
    (acts : list action) :
  on_mqtt_disconnect rc c = Ok (tt, c1, acts) ->
  deliver_all acts ∅ = ∅.
Proof.
  unfold on_mqtt_disconnect, bind, get, modify, emit, ret. cbn.
  destruct (new_server c) as [srv|]; [destruct (truthy srv)|];
    intros [= <- <-]; reflexivity.
Qed.

Lemma process_tile_data_preserves (data : list ascii) :
  preserves (process_tile_data data).
Proof.
  intros c subs c1 acts Hc. unfold process_tile_data.
  destruct (json_loads data) as [d|]; [|discriminate].
  unfold bind, modify.
  destruct (select_node (set_tile_dict d c)) as [[[[] c3] acts3]|] eqn:Es;
    [|discriminate].
  intros [= <- <-]. cbn [app].
  eapply select_node_preserves; [|exact Es].
  apply (consistent_same c); auto.
Qed.

Lemma on_mqtt_message_preserves (topic : string) (payload : list ascii) :
  preserves (on_mqtt_message topic payload).
Proof.
  intros c subs c1 acts Hc. unfold on_mqtt_message. unfold bind at 1, get.
  destruct (startswith _ topic).
  { unfold emit. intros [= <- <-]. exact Hc. }
  destruct (startswith "/pp/ubx/" topic).
  { unfold bind, emit, modify, ret.
    destruct (String.eqb topic "/pp/ubx/mga"); intros [= <- <-]; [|exact Hc].
    cbn [app deliver_all fold_left deliver].
    apply (consistent_same c); try reflexivity.
    apply consistent_insert_other; [discriminate|discriminate|].
    now apply consistent_delete. }
  destruct (startswith "pp/ip" topic).
  { destruct (endswith "/dict" topic).
    - destruct (process_tile_data payload c) as [[[[] c3] acts3]|] eqn:Ep;
        [|discriminate].
      intros [= <- <-]. cbn [app].
      eapply process_tile_data_preserves; eauto.
    - unfold emit. intros [= <- <-]. exact Hc. }
  unfold ret. intros [= <- <-]. exact Hc.
Qed.

(** The parser keeps what every callback keeps. *)
Lemma run_callbacks_keeps {St : Type} (P : St -> Prop)
    (callbacks : list (NmeaParser.regexp * @NmeaParser.callback St)) :
  Forall (fun rc => forall data st st1,
                      P st -> snd rc data st = Ok st1 -> P st1) callbacks ->
  forall index buffer st st1 calls,
    P st ->
    NmeaParser.run_callbacks index callbacks buffer st = Ok (st1, calls) ->
    P st1.
Proof.
  induction callbacks as [|[re cb] rest IH]; intros Hall index buffer st st1 calls Hp.
  - cbn. now intros [= <- <-].
  - cbn [NmeaParser.run_callbacks]. inversion Hall as [|x l Hcb Hrest]; subst.
    destruct (re buffer); [|now apply IH].
    destruct (decode_ascii buffer) as [data|]; [|discriminate].
    destruct (cb data st) as [st2|] eqn:E2; [|discriminate].
    destruct (NmeaParser.run_callbacks (S index) rest buffer st2)
      as [[st3 calls3]|] eqn:E3; [|discriminate].
    intros [= <- <-]. eapply IH; [exact Hrest| |exact E3].
    eapply Hcb; eauto.
Qed.

Lemma parse_keeps {St : Type} (P : St -> Prop)
    (callbacks : list (NmeaParser.regexp * @NmeaParser.callback St)) :
  Forall (fun rc => forall data st st1,
                      P st -> snd rc data st = Ok st1 -> P st1) callbacks ->
  forall data buffer st buffer1 st1 calls,
    P st ->
    NmeaParser.parse callbacks buffer data st = Ok (buffer1, st1, calls) ->
    P st1.
Proof.
  intros Hall. induction data as [|byte rest IH]; intros buffer st buffer1 st1 calls Hp.
  - cbn. now intros [= <- <- <-].
  - cbn [NmeaParser.parse].
    destruct (NmeaParser.parse_byte callbacks buffer byte st)
      as [[[b2 st2] calls2]|] eqn:E2; [|discriminate].
    destruct (NmeaParser.parse callbacks b2 rest st2)
      as [[[b3 st3] calls3]|] eqn:E3; [|discriminate].
    intros [= <- <- <-]. eapply IH; [|exact E3].
    unfold NmeaParser.parse_byte in E2.
    destruct (byte_eqb byte "$"); [now injection E2 as <- <- <-|].
    destruct buffer as [buf|]; [|now injection E2 as <- <- <-].
    destruct (NmeaParser.in_class byte); [now injection E2 as <- <- <-|].
    destruct (ord byte =? 13)%Z; [|now injection E2 as <- <- <-].
    destruct (NmeaParser.on_cr callbacks buf st) as [[st4 calls4]|] eqn:E4;
      [|discriminate].
    injection E2 as <- <- <-.
    unfold NmeaParser.on_cr in E4.
    destruct (3 <? Z.of_nat (length buf))%Z; [|now injection E4 as <- <-].
    destruct (NmeaParser.tail3 buf) as [[[m h] l]|]; [|now injection E4 as <- <-].
    destruct (byte_eqb m "*"); [|now injection E4 as <- <-].
    destruct (_ =? _)%Z; [|now injection E4 as <- <-].
    eapply run_callbacks_keeps; eauto.
Qed.

Lemma feed_preserves (buffer buffer1 : option (list ascii)) (data : list ascii)
    (c c1 : PointPerfectClient) (acts : list action) subs :
  consistent c subs ->
  feed buffer data c = Ok (buffer1, c1, acts) ->
  consistent c1 (deliver_all acts subs).
Proof.
  intros Hc. unfold feed.
  destruct (NmeaParser.parse handlers buffer data (c, []))
    as [[[b2 st2] calls2]|] eqn:E; [|discriminate].
  intros [= <- <- <-].
  eapply (parse_keeps
            (fun st => consistent (fst st) (deliver_all (snd st) subs)));
    [| |exact E]; [|exact Hc].
  unfold handlers. constructor; [|constructor].
  cbn [snd]. intros text [c2 log] st1 Hp. unfold as_callback. cbn [fst snd] in *.
  destruct (handle_nmea_gga text c2) as [[[[] c3] acts3]|] eqn:Eh; [|discriminate].
  intros [= <-]. cbn [fst snd]. rewrite deliver_all_app.
  eapply handle_nmea_gga_preserves; eauto.
Qed.

Lemma step_preserves (ev : event) (s s1 : session) :
  consistent (client s) (active s) -> step ev s = Ok s1 ->
  consistent (client s1) (active s1).
Proof.
  intros Hc. destruct ev as [data|rc|rc|topic payload]; cbn [step].
  - destruct (feed (frame s) data (client s)) as [[[b c1] acts]|] eqn:E;
      [|discriminate].
    intros [= <-]. cbn. eapply feed_preserves; eauto.
  - destruct (on_mqtt_connect rc (client s)) as [[[[] c1] acts]|] eqn:E;
      [|discriminate].
    intros [= <-]. cbn. eapply on_mqtt_connect_preserves; eauto.
  - destruct (on_mqtt_disconnect rc (client s)) as [[[[] c1] acts]|] eqn:E;
      [|discriminate].
    intros [= <-]. cbn. rewrite (on_mqtt_disconnect_actions _ _ _ _ E).
    apply consistent_empty.
  - destruct (on_mqtt_message topic payload (client s)) as [[[[] c1] acts]|] eqn:E;
      [|discriminate].
    intros [= <-]. cbn. eapply on_mqtt_message_preserves; eauto.
Qed.

Lemma run_preserves (evs : list event) : forall s s1,
  consistent (client s) (active s) -> run evs s = Ok s1 ->
  consistent (client s1) (active s1).
Proof.
  induction evs as [|ev evs IH]; intros s s1 Hc; cbn [run].
  - now intros [= <-].
  - destruct (step ev s) as [s2|] eqn:E; [|discriminate].
    intros Hr. eapply IH; [|exact Hr]. eapply step_preserves; eauto.
Qed.

(** C2.  Whatever chunks the receiver sends and whatever callbacks the
    MQTT library makes, a session that starts with no subscription never
    has more than one active tile subscription nor more than one active
    correction subscription: each one is the topic the client records.
    A change of tile first unsubscribes the old tile topic, then
    subscribes the new one.  A new node on the current server first
    unsubscribes the old correction topic, then subscribes the new one; a
    new node on another server makes one call, the disconnect, which
    drops the old subscription. *)
Theorem C2_one_tile_one_correction :
  (forall c0 buffer evs s,
     run evs (fresh c0 buffer) = Ok s ->
     at_most_one Tile (active s) /\ at_most_one Correction (active s) /\
     consistent (client s) (active s)) /\
  (forall la lo c c1 acts,
     process_position la lo c = Ok (tt, c1, acts) ->
     tile_topic c1 <> tile_topic c ->
     acts = (if truthy (tile_topic c) then [Unsubscribe (tile_topic c)] else [])
            ++ [Subscribe Tile (tile_topic c1) 1]) /\
  (forall c c1 acts d,
     tile_dict c = Some d ->
     select_node c = Ok (tt, c1, acts) ->
     acts = (if String.eqb (mqtt_server c) (endpoint d)
             then (if truthy (spartn_topic c)
                   then [Unsubscribe (spartn_topic c)] else [])
                  ++ [Subscribe Correction (spartn_topic c1) 0]
             else [Disconnect])).
Proof.
  split; [|split].
  - intros c0 buffer evs s Hr.
    assert (Hc : consistent (client s) (active s)).
    { eapply run_preserves; [|exact Hr]. apply consistent_empty. }
    destruct (consistent_at_most_one _ _ Hc). auto.
  - intros la lo c c1 acts. rewrite process_position_eq.
    assert (Sel : forall c2, select_node c2 = Ok (tt, c1, acts) ->
                             tile_topic c1 = tile_topic c2).
    { intros c2. rewrite select_node_eq.
      destruct (tile_dict c2) as [d|]; [|now intros [= <- <-]].
      destruct (nearest _ _ _); [|discriminate].
      destruct (if localized c2 then _ else _); [|discriminate].
      destruct (negb _); now intros [= <- <-]. }
    destruct (localized c).
    + destruct (must_recompute la lo c); [|intros [= <- <-]; now intros N].
      destruct (get_tile_topic c la lo) as [new|]; [|discriminate].
      destruct (negb _).
      * now intros [= <- <-].
      * intros E N. apply Sel in E. now destruct N.
    + destruct (negb _); [|intros [= <- <-]; now intros N].
      intros E N. apply Sel in E. now destruct N.
  - intros c c1 acts d Hd. rewrite select_node_eq, Hd.
    destruct (nearest _ _ _); [|discriminate].
    destruct (if localized c then _ else _); [|discriminate].
    destruct (String.eqb (mqtt_server c) (endpoint d)); cbn [negb];
      now intros [= <- <-].
Qed.

End Controller.

(** ** Tile naming: properties *)

Lemma py_round_int (x : Q) (z : Z) : (x == inject_Z z)%Q -> py_round x = z.
Proof.
  intros E. unfold py_round. rewrite (Qfloor_comp _ _ E), Qfloor_Z.
  assert (C : Qcompare (x - inject_Z z) (1 # 2) = Lt).
  { apply (proj1 (Qlt_alt _ _)). lra. }
  now rewrite C.
Qed.

Lemma Qfloor_unique (y : Q) (k : Z) :
  (inject_Z k <= y)%Q -> (y < inject_Z (k + 1))%Q -> Qfloor y = k.
Proof.
  intros L U.
  pose proof (Qfloor_le y) as F1. pose proof (Qlt_floor y) as F2.
  assert (A : (inject_Z (Qfloor y) < inject_Z (k + 1))%Q)
    by (eapply Qle_lt_trans; eauto).
  assert (B : (inject_Z k < inject_Z (Qfloor y + 1))%Q)
    by (eapply Qle_lt_trans; eauto).
  rewrite <- Zlt_Qlt in A, B. lia.
Qed.

Lemma Qfloor_neg (y : Q) : (Qfloor y <? 0)%Z = Qltb y 0.
Proof.
  destruct (Qltb y 0) eqn:E.
  - apply Qltb_lt in E. apply Z.ltb_lt.
    pose proof (Qfloor_le y) as F.
    assert (A : (inject_Z (Qfloor y) < inject_Z 0)%Q)
      by (eapply Qle_lt_trans; eauto).
    now rewrite <- Zlt_Qlt in A.
  - apply Qltb_ge in E. apply Z.ltb_ge.
    change 0%Z with (Qfloor 0). now apply Qfloor_resp_le.
Qed.

Lemma zrange_in (lo k : Z) (n : nat) :
  (lo <= k < lo + Z.of_nat n)%Z -> In k (zrange lo n).
Proof.
  intros B. unfold zrange. apply in_map_iff. exists (Z.to_nat (k - lo)).
  split; [lia|]. apply in_seq. lia.
Qed.

Lemma substring_skip (p s : string) (n k : nat) :
  String.length p = k -> substring k n (p +:+ s) = substring 0 n s.
Proof.
  intros <-. induction p as [|c p IH]; [reflexivity|].
  rewrite append_cons. cbn [String.length substring]. exact IH.
Qed.

Lemma substring_take (a s : string) (n k : nat) :
  String.length a = k ->
  substring 0 (k + n) (a +:+ s) = a +:+ substring 0 n s.
Proof.
  intros <-. induction a as [|c a IH]; [reflexivity|].
  rewrite !append_cons. cbn [String.length Nat.add substring]. now rewrite IH.
Qed.

Lemma substring_whole (a s : string) (k : nat) :
  String.length a = k -> substring 0 k (a +:+ s) = a.
Proof.
  intros E. rewrite <- (Nat.add_0_r k), (substring_take _ _ _ _ E).
  destruct s; cbn [substring]; apply append_nil_r.
Qed.

Lemma translate_append (a b : string) :
  translate (a +:+ b) = translate a +:+ translate b.
Proof.
  induction a as [|c a IH]; [reflexivity|].
  rewrite append_cons. cbn [translate]. now rewrite IH, append_cons.
Qed.

Lemma translate_length (a : string) :
  String.length (translate a) = String.length a.
Proof. induction a as [|c a IH]; cbn; [reflexivity | now rewrite IH]. Qed.

(** Two parts of five and six characters are read back one by one. *)
Lemma node_coordinates_parts (a b : string) (x y : Z) :
  part_reads 5 a x = true -> part_reads 6 b y = true ->
  node_coordinates (a +:+ b) = Ok (x, y).
Proof.
  unfold part_reads. intros Ha Hb.
  apply andb_prop in Ha as [La Ra]. apply andb_prop in Hb as [Lb Rb].
  apply Nat.eqb_eq in La, Lb.
  destruct (py_int (translate a)) as [va|] eqn:Ea; [|discriminate].
  destruct (py_int (translate b)) as [vb|] eqn:Eb; [|discriminate].
  apply Z.eqb_eq in Ra, Rb. subst va vb.
  unfold node_coordinates, slice. rewrite translate_append.
  change (5 - 0)%nat with 5%nat. change (11 - 5)%nat with 6%nat.
  rewrite <- (translate_length a) in La. rewrite <- (translate_length b) in Lb.
  rewrite (substring_whole _ _ 5 La), Ea. cbn [rbind].
  rewrite (substring_skip _ _ _ 5 La).
  rewrite <- (append_nil_r (translate b)) at 1.
  rewrite (substring_whole _ _ 6 Lb), Eb. reflexivity.
Qed.

Lemma topic_of_cell_parts (level klat klon : Z) :
  topic_of_cell level klat klon
  = ("pp/ip/L" +:+ str_of_int level)
    +:+ lat_part level klat +:+ lon_part level klon +:+ "/dict".
Proof.
  unfold topic_of_cell, lat_part, lon_part. now rewrite !string_app_assoc.
Qed.

Lemma level0_parts_read : level_parts_read 0 1 = true.
Proof. vm_compute. reflexivity. Qed.

Lemma level1_parts_read : level_parts_read 1 2 = true.
Proof. vm_compute. reflexivity. Qed.

Lemma level2_parts_read : level_parts_read 2 4 = true.
Proof. vm_compute. reflexivity. Qed.

Lemma level_parts_read_cell (level : Z) (cells : nat) (klat klon : Z) :
  (level = 0 \/ level = 1 \/ level = 2)%Z ->
  level_parts_read level cells = true ->
  (- Z.of_nat (10 * cells) <= klat < Z.of_nat (10 * cells))%Z ->
  (- Z.of_nat (100 * cells) <= klon < Z.of_nat (100 * cells))%Z ->
  node_coordinates (substring 8 11 (topic_of_cell level klat klon))
  = Ok (cell_center_hundredths level klat, cell_center_hundredths level klon).
Proof.
  intros Hl C Hlat Hlon. unfold level_parts_read in C.
  apply andb_prop in C as [Clat Clon].
  rewrite forallb_forall in Clat. rewrite forallb_forall in Clon.
  assert (Ilat : In klat (zrange (- Z.of_nat (10 * cells)) (20 * cells))).
  { apply zrange_in. lia. }
  assert (Ilon : In klon (zrange (- Z.of_nat (100 * cells)) (200 * cells))).
  { apply zrange_in. lia. }
  specialize (Clat klat Ilat). specialize (Clon klon Ilon). cbv beta in Clat, Clon.
  rewrite topic_of_cell_parts.
  assert (L8 : String.length ("pp/ip/L" +:+ str_of_int level) = 8%nat).
  { destruct Hl as [-> | [-> | ->]]; reflexivity. }
  rewrite (substring_skip _ _ _ 8 L8).
  pose proof Clat as La. pose proof Clon as Lb. unfold part_reads in La, Lb.
  apply andb_prop in La as [La _]. apply andb_prop in Lb as [Lb _].
  apply Nat.eqb_eq in La, Lb.
  change 11%nat with (5 + 6)%nat.
  rewrite (substring_take _ _ 6 5 La), (substring_whole _ _ 6 Lb).
  now apply node_coordinates_parts.
Qed.

Lemma level_edge_delta level delta cells :
  level_edge level delta cells -> tile_delta level = Ok delta.
Proof. intros []; reflexivity. Qed.

Lemma level_edge_pos level delta cells :
  level_edge level delta cells -> (0 < delta)%Q.
Proof. intros []; reflexivity. Qed.

Lemma level_edge_checked level delta cells :
  level_edge level delta cells -> level_parts_read level cells = true.
Proof.
  intros []; [apply level0_parts_read | apply level1_parts_read
             | apply level2_parts_read].
Qed.

Lemma center_of_cell level delta cells (k : Z) :
  level_edge level delta cells ->
  ((inject_Z k * delta + delta / 2) * 100
   == inject_Z (cell_center_hundredths level k))%Q.
Proof.
  intros []; cbn [cell_center_hundredths];
    rewrite inject_Z_plus, inject_Z_mult; field.
Qed.

Lemma cell_of_center level delta cells (k : Z) :
  level_edge level delta cells ->
  Qfloor (inject_Z (cell_center_hundredths level k) / 100 / delta) = k.
Proof.
  intros E. apply Qfloor_unique.
  - destruct E; cbn [cell_center_hundredths];
      rewrite inject_Z_plus, inject_Z_mult.
    all: match goal with
         | |- (_ <= ?y)%Q => assert (Hy : (y == inject_Z k + (1 # 2))%Q) by field
         end; rewrite Hy; lra.
  - rewrite inject_Z_plus. change (inject_Z 1) with 1%Q.
    destruct E; cbn [cell_center_hundredths];
      rewrite inject_Z_plus, inject_Z_mult.
    all: match goal with
         | |- (?y < _)%Q => assert (Hy : (y == inject_Z k + (1 # 2))%Q) by field
         end; rewrite Hy; lra.
Qed.

Lemma Qltb_div_pos (x delta : Q) : (0 < delta)%Q -> Qltb (x / delta) 0 = Qltb x 0.
Proof.
  intros Hd. destruct (Qltb x 0) eqn:E.
  - apply Qltb_lt in E. apply Qltb_lt.
    apply Qlt_shift_div_r; [exact Hd|]. lra.
  - apply Qltb_ge in E. apply Qltb_ge.
    apply Qle_shift_div_l; [exact Hd|]. lra.
Qed.

Lemma get_tile_topic_cell (c : PointPerfectClient) level delta cells (la lo : Q) :
  tile_level c = level -> level_edge level delta cells ->
  get_tile_topic c la lo
  = Ok (topic_of_cell level (Qfloor (la / delta)) (Qfloor (lo / delta))).
Proof.
  intros El E. unfold get_tile_topic. rewrite El, (level_edge_delta _ _ _ E).
  cbn [rbind]. unfold topic_of_cell, tile_center_hundredths.
  pose proof (level_edge_pos _ _ _ E) as Hd.
  rewrite !Qfloor_neg, !Qltb_div_pos by exact Hd.
  rewrite (py_round_int _ _ (center_of_cell _ _ _ (Qfloor (la / delta)) E)).
  rewrite (py_round_int _ _ (center_of_cell _ _ _ (Qfloor (lo / delta)) E)).
  reflexivity.
Qed.

Lemma cell_bounds level delta cells (x : Q) (n : nat) :
  level_edge level delta cells ->
  (- inject_Z (Z.of_nat n) * 10 <= x)%Q -> (x < inject_Z (Z.of_nat n) * 10)%Q ->
  (- Z.of_nat (n * cells) <= Qfloor (x / delta) < Z.of_nat (n * cells))%Z.
Proof.
  intros E L U. pose proof (level_edge_pos _ _ _ E) as Hd.
  assert (Hc : (inject_Z (Z.of_nat (n * cells)) * delta == inject_Z (Z.of_nat n) * 10)%Q).
  { rewrite Nat2Z.inj_mul, inject_Z_mult. destruct E; cbn; field. }
  split.
  - assert (A : (inject_Z (- Z.of_nat (n * cells)) <= x / delta)%Q).
    { apply Qle_shift_div_l; [exact Hd|]. rewrite inject_Z_opp. lra. }
    apply Qfloor_resp_le in A. now rewrite Qfloor_Z in A.
  - assert (A : (x / delta < inject_Z (Z.of_nat (n * cells)))%Q).
    { apply Qlt_shift_div_r; [exact Hd|]. lra. }
    pose proof (Qfloor_le (x / delta)) as F.
    assert (B : (inject_Z (Qfloor (x / delta)) < inject_Z (Z.of_nat (n * cells)))%Q)
      by (eapply Qle_lt_trans; eauto).
    now rewrite <- Zlt_Qlt in B.
Qed.

(** C5.  For a position with latitude in [-100, 100) and longitude in
    [-1000, 1000) (every geographic position; there the two magnitudes fit
    their four and five digits) and a tile level 0, 1 or 2 (edges 10, 5 and
    2.5 degrees), the coordinates read back from the tile topic are those
    of the centre of the tile that holds the position, and the tile topic of
    that centre is the original topic. *)
Theorem C5_tile_topic_round_trip (c : PointPerfectClient) (la lo : Q)
    (topic : string) :
  (tile_level c = 0 \/ tile_level c = 1 \/ tile_level c = 2)%Z ->
  (-100 <= la)%Q -> (la < 100)%Q -> (-1000 <= lo)%Q -> (lo < 1000)%Q ->
  get_tile_topic c la lo = Ok topic ->
  exists delta cla clo,
    tile_delta (tile_level c) = Ok delta /\
    tile_center_of_topic topic = Ok (cla, clo) /\
    (cla == inject_Z (Qfloor (la / delta)) * delta + delta / 2)%Q /\
    (clo == inject_Z (Qfloor (lo / delta)) * delta + delta / 2)%Q /\
    get_tile_topic c cla clo = Ok topic.
Proof.
  intros Hl L1 U1 L2 U2 Ht.
  assert (E : exists delta cells, level_edge (tile_level c) delta cells).
  { destruct Hl as [-> | [-> | ->]]; do 2 eexists; constructor. }
  destruct E as [delta [cells E]].
  rewrite (get_tile_topic_cell c _ _ _ la lo eq_refl E) in Ht.
  assert (Et : topic = topic_of_cell (tile_level c) (Qfloor (la / delta))
                         (Qfloor (lo / delta))) by congruence.
  subst topic. clear Ht.
  set (klat := Qfloor (la / delta)). set (klon := Qfloor (lo / delta)).
  assert (Blat : (- Z.of_nat (10 * cells) <= klat < Z.of_nat (10 * cells))%Z).
  { apply (cell_bounds _ _ _ la 10 E);
      change (inject_Z (Z.of_nat 10)) with 10%Q; lra. }
  assert (Blon : (- Z.of_nat (100 * cells) <= klon < Z.of_nat (100 * cells))%Z).
  { apply (cell_bounds _ _ _ lo 100 E);
      change (inject_Z (Z.of_nat 100)) with 100%Q; lra. }
  pose proof (level_parts_read_cell _ _ _ _ Hl (level_edge_checked _ _ _ E)
                Blat Blon) as R.
  exists delta,
    (inject_Z (cell_center_hundredths (tile_level c) klat) / 100)%Q,
    (inject_Z (cell_center_hundredths (tile_level c) klon) / 100)%Q.
  split; [exact (level_edge_delta _ _ _ E)|].
  split; [unfold tile_center_of_topic; now rewrite R|].
  split; [|split].
  - rewrite <- (center_of_cell _ _ _ klat E). subst klat. clear. field.
  - rewrite <- (center_of_cell _ _ _ klon E). subst klon. clear. field.
  - rewrite (get_tile_topic_cell c _ _ _ _ _ eq_refl E).
    now rewrite !(cell_of_center _ _ _ _ E).
Qed.

Lemma C5_witness :
  exists delta cla clo,
    tile_delta (tile_level sample_client) = Ok delta /\
    tile_center_of_topic "pp/ip/L2N4875E01125/dict" = Ok (cla, clo) /\
    (cla == inject_Z (Qfloor (48.1173 / delta)) * delta + delta / 2)%Q /\
    (clo == inject_Z (Qfloor (11.5167 / delta)) * delta + delta / 2)%Q /\
    get_tile_topic sample_client cla clo = Ok "pp/ip/L2N4875E01125/dict".
Proof.
  apply (C5_tile_topic_round_trip sample_client 48.1173 11.5167).
  - right. right. reflexivity.
  - vm_compute. discriminate.
  - vm_compute. reflexivity.
  - vm_compute. discriminate.
  - vm_compute. reflexivity.
  - vm_compute. reflexivity.
Defined.

(** ** The properties on a sample session *)

Lemma C2_witness :
  exists s,
    run (H := sample_library) sample_events sample_start = Ok s /\
    at_most_one Tile (active s) /\ at_most_one Correction (active s) /\
    active s !! "pp/ip/L2N4875E01125/dict" = Some Tile /\
    active s !! "pp/ip/N4807E01131" = Some Correction.
Proof.
  destruct (run (H := sample_library) sample_events sample_start) as [s|] eqn:E.
  - exists s. split; [reflexivity|].
    destruct (proj1 (@C2_one_tile_one_correction sample_library) _ _ _ _ E)
      as [T [C _]].
    split; [exact T|]. split; [exact C|].
    vm_compute in E. injection E as <-. split; vm_compute; reflexivity.
  - vm_compute in E. discriminate.
Defined.


Lemma C4_witness :
  handle_nmea_gga (H := sample_library)
    "$GPGGA,123519,4807.038,N,01131.000,E,1,08,0.9,545.4,M,46.9,M,,*47"
    sample_client
  = match process_position (H := sample_library) (2887038 # 60000) (691000 # 60000)
            (assist_cleared sample_client) with
    | Raise e => Raise e
    | Ok (u, c2, acts) => Ok (u, c2, assist_unsubscribed sample_client ++ acts)
    end.
Proof.
  refine (proj1 (proj2 (@C4_quality_codes sample_library
                   "$GPGGA,123519,4807.038,N,01131.000,E,1,08,0.9,545.4,M,46.9,M,,*47"
                   sample_client sample_client 1%Z (2887038 # 60000)%Q
                   (691000 # 60000)%Q _ _) _ _)).
  - vm_compute. reflexivity.
  - vm_compute. reflexivity.
  - discriminate.
  - discriminate.
Defined.

(** ** The sentence framer: further properties *)

Section FramerMore.

Context {St : Type}.
Implicit Types (callbacks : list (NmeaParser.regexp * @NmeaParser.callback St)).

Lemma parse_app callbacks (d1 d2 : list ascii) : forall buffer st,
  NmeaParser.parse callbacks buffer (d1 ++ d2) st =
  match NmeaParser.parse callbacks buffer d1 st with
  | Raise e => Raise e
  | Ok (buffer1, st1, calls1) =>
      match NmeaParser.parse callbacks buffer1 d2 st1 with
      | Raise e => Raise e
      | Ok (buffer2, st2, calls2) => Ok (buffer2, st2, calls1 ++ calls2)
      end
  end.
Proof.
  induction d1 as [|byte d1 IH]; intros buffer st.
  - cbn [app NmeaParser.parse].
    now destruct (NmeaParser.parse callbacks buffer d2 st) as [[[b s] c]|].
  - cbn [app NmeaParser.parse].
    destruct (NmeaParser.parse_byte callbacks buffer byte st)
      as [[[b1 s1] c1]|]; [|reflexivity].
    rewrite IH.
    destruct (NmeaParser.parse callbacks b1 d1 s1) as [[[b2 s2] c2]|];
      [|reflexivity].
    destruct (NmeaParser.parse callbacks b2 d2 s2) as [[[b3 s3] c3]|];
      [|reflexivity].
    now rewrite app_assoc.
Qed.

(** The frame in progress stays a start delimiter followed by characters
    of the class. *)
Lemma parse_keeps_frame callbacks : forall data buffer st buffer1 st1 calls,
  frame_opt_ok buffer = true ->
  NmeaParser.parse callbacks buffer data st = Ok (buffer1, st1, calls) ->
  frame_opt_ok buffer1 = true.
Proof.
  induction data as [|byte rest IH]; intros buffer st buffer1 st1 calls Hb.
  - cbn. now intros [= <- <- <-].
  - cbn [NmeaParser.parse].
    destruct (NmeaParser.parse_byte callbacks buffer byte st)
      as [[[b2 st2] calls2]|] eqn:E2; [|discriminate].
    destruct (NmeaParser.parse callbacks b2 rest st2)
      as [[[b3 st3] calls3]|] eqn:E3; [|discriminate].
    intros [= <- <- <-]. eapply IH; [|exact E3].
    unfold NmeaParser.parse_byte in E2.
    destruct (byte_eqb byte "$") eqn:Ed.
    { injection E2 as <- <- <-. cbn. now rewrite Ed. }
    destruct buffer as [buf|]; [|now injection E2 as <- <- <-].
    destruct (NmeaParser.in_class byte) eqn:Ec.
    { injection E2 as <- <- <-. now apply frame_ok_snoc. }
    destruct (ord byte =? 13)%Z; [|now injection E2 as <- <- <-].
    destruct (NmeaParser.on_cr callbacks buf st) as [[st4 calls4]|];
      [|discriminate].
    now injection E2 as <- <- <-.
Qed.

(** Characters of the class extend the frame in progress. *)
Lemma parse_class_bytes callbacks (cs : list ascii) : forall buf rest st,
  forallb NmeaParser.in_class cs = true ->
  NmeaParser.parse callbacks (Some buf) (cs ++ rest) st
  = NmeaParser.parse callbacks (Some (buf ++ cs)) rest st.
Proof.
  induction cs as [|c cs IH]; intros buf rest st Hc.
  - now rewrite app_nil_r.
  - cbn [forallb] in Hc. apply andb_prop in Hc as [Hc1 Hc2].
    cbn [app NmeaParser.parse]. unfold NmeaParser.parse_byte.
    assert (byte_eqb c "$" = false) as ->.
    { destruct (byte_eqb c "$") eqn:E; [|reflexivity].
      apply byte_eqb_eq in E. subst c. discriminate. }
    rewrite Hc1, (IH _ _ _ Hc2), <- app_assoc. cbn [app].
    now destruct (NmeaParser.parse callbacks _ rest st) as [[[b s] c0]|].
Qed.


Lemma tail3_snoc3 (pre : list ascii) (m h l : ascii) :
  NmeaParser.tail3 (pre ++ [m; h; l]) = Some (m, h, l).
Proof. unfold NmeaParser.tail3. now rewrite rev_app_distr. Qed.

Lemma payload_framed (body : list ascii) (d m h l : ascii) :
  NmeaParser.payload (d :: body ++ [m; h; l]) = body.
Proof.
  unfold NmeaParser.payload. cbn [length skipn].
  rewrite length_app. cbn [length].
  replace (S (length body + 3) - 4)%nat with (length body + 0)%nat by lia.
  rewrite drop_0, firstn_app_2. cbn [firstn]. apply app_nil_r.
Qed.

Lemma checksum_valid_framed (body : list ascii) (h l : ascii) :
  checksum_valid ("$"%char :: body ++ ["*"%char; h; l])
  = (NmeaParser.xor_bytes body =? NmeaParser.chksum_received h l)%Z.
Proof.
  unfold checksum_valid.
  change ("$"%char :: body ++ ["*"%char; h; l])
    with (("$"%char :: body) ++ ["*"%char; h; l]).
  rewrite tail3_snoc3.
  change (("$"%char :: body) ++ ["*"%char; h; l])
    with ("$"%char :: body ++ ["*"%char; h; l]).
  rewrite payload_framed.
  assert ((3 <? Z.of_nat (length ("$"%char :: body ++ ["*"%char; h; l])))%Z = true)
    as ->.
  { apply Z.ltb_lt. cbn [length]. rewrite length_app. cbn [length]. lia. }
  reflexivity.
Qed.

(** What the framer does with one whole sentence, whatever it held before. *)
Lemma parse_sentence callbacks (buffer0 : option (list ascii))
    (body : list ascii) (h l : ascii) (st : St) :
  forallb NmeaParser.in_class body = true ->
  NmeaParser.in_class h = true -> NmeaParser.in_class l = true ->
  NmeaParser.parse callbacks buffer0
    ("$"%char :: body ++ ["*"%char; h; l; CR]) st
  = match NmeaParser.on_cr callbacks ("$"%char :: body ++ ["*"%char; h; l]) st with
    | Raise e => Raise e
    | Ok (st1, calls) => Ok (None, st1, calls)
    end.
Proof.
  intros Hb Hh Hl. cbn [NmeaParser.parse]. unfold NmeaParser.parse_byte at 1.
  change (byte_eqb "$" "$") with true. cbv iota.
  change (body ++ ["*"%char; h; l; CR]) with (body ++ ["*"%char; h; l] ++ [CR]).
  rewrite app_assoc.
  rewrite parse_class_bytes.
  2:{ rewrite forallb_app, Hb. cbn. now rewrite Hh, Hl. }
  cbn [NmeaParser.parse app]. unfold NmeaParser.parse_byte.
  change (byte_eqb CR "$") with false. change (NmeaParser.in_class CR) with false.
  change (ord CR =? 13)%Z with true. cbv iota.
  destruct (NmeaParser.on_cr callbacks _ st) as [[st1 calls]|]; [|reflexivity].
  now rewrite app_nil_r.
Qed.

End FramerMore.

Section FramerTheorems.

Context {St : Type}.
Implicit Types (callbacks : list (NmeaParser.regexp * @NmeaParser.callback St)).

(** X1.  Feeding the chunks of a byte stream one after the other gives the
    same frame buffer, state and calls, or the same exception, as feeding
    the whole stream at once: a sentence may be cut anywhere between two
    reads. *)
Theorem parse_chunks_is_parse_concat callbacks (chunks : list (list ascii)) :
  forall buffer st,
    parse_chunks callbacks buffer chunks st
    = NmeaParser.parse callbacks buffer (concat chunks) st.
Proof.
  induction chunks as [|chunk rest IH]; intros buffer st; [reflexivity|].
  cbn [parse_chunks concat]. rewrite parse_app.
  destruct (NmeaParser.parse callbacks buffer chunk st) as [[[b1 s1] c1]|];
    [|reflexivity].
  now rewrite IH.
Qed.

(** X2.  With callbacks that return, the framer returns on every byte
    stream, whatever bytes it holds, and the frame it keeps for the next
    call is again a ['$'] followed by characters of the class: decoding a
    frame as ASCII cannot fail. *)
Theorem parse_always_returns callbacks (data : list ascii)
    (buffer : option (list ascii)) (st : St) :
  frame_opt_ok buffer = true ->
  Forall (fun rc => forall text s, is_ok (snd rc text s) = true) callbacks ->
  exists buffer1 st1 calls,
    NmeaParser.parse callbacks buffer data st = Ok (buffer1, st1, calls) /\
    frame_opt_ok buffer1 = true.
Proof.
  intros Hb Hall. pose proof (parse_total callbacks data buffer st Hb Hall) as T.
  destruct (NmeaParser.parse callbacks buffer data st) as [[[b1 s1] c1]|] eqn:E;
    [|discriminate].
  exists b1, s1, c1. split; [reflexivity|]. eapply parse_keeps_frame; eauto.
Qed.

(** X3.  Every text a callback receives is a whole frame: a ['$'] followed
    by characters of the class, ending in ['*'] and two bytes that
    [int(_, 16)] reads as the exclusive-or of the bytes in between. *)
Theorem only_checked_frames_are_dispatched callbacks (data : list ascii)
    (buffer buffer1 : option (list ascii)) (st st1 : St)
    (calls : list NmeaParser.call) :
  frame_opt_ok buffer = true ->
  NmeaParser.parse callbacks buffer data st = Ok (buffer1, st1, calls) ->
  Forall dispatched_frame calls.
Proof. apply parse_calls_checked. Qed.

(** X4.  A sentence ['$' body '*' h l] followed by a carriage return, with
    body and checksum bytes in the class and a checksum field that reads
    as the exclusive-or of the body, is handed to every callback whose
    pattern matches, whatever unfinished frame the framer held; the framer
    is idle afterwards. *)
Theorem valid_sentence_is_dispatched callbacks (buffer0 : option (list ascii))
    (body : list ascii) (h l : ascii) (st : St) :
  forallb NmeaParser.in_class body = true ->
  NmeaParser.in_class h = true -> NmeaParser.in_class l = true ->
  NmeaParser.chksum_received h l = NmeaParser.xor_bytes body ->
  NmeaParser.parse callbacks buffer0
    ("$"%char :: body ++ ["*"%char; h; l; CR]) st
  = match NmeaParser.run_callbacks 0 callbacks
            ("$"%char :: body ++ ["*"%char; h; l]) st with
    | Raise e => Raise e
    | Ok (st1, calls) => Ok (None, st1, calls)
    end.
Proof.
  intros Hb Hh Hl Hc. rewrite parse_sentence by assumption.
  rewrite on_cr_valid; [reflexivity|].
  rewrite checksum_valid_framed, Hc. apply Z.eqb_refl.
Qed.

(** X5.  A sentence whose checksum field does not read as the
    exclusive-or of its body, be it a wrong value or a field [int]
    rejects, is dropped: no callback runs, the state is unchanged and the
    framer is idle. *)
Theorem bad_checksum_is_dropped callbacks (buffer0 : option (list ascii))
    (body : list ascii) (h l : ascii) (st : St) :
  forallb NmeaParser.in_class body = true ->
  NmeaParser.in_class h = true -> NmeaParser.in_class l = true ->
  NmeaParser.chksum_received h l <> NmeaParser.xor_bytes body ->
  NmeaParser.parse callbacks buffer0
    ("$"%char :: body ++ ["*"%char; h; l; CR]) st
  = Ok (None, st, []).
Proof.
  intros Hb Hh Hl Hc. rewrite parse_sentence by assumption.
  rewrite on_cr_checksum; [reflexivity|].
  rewrite checksum_valid_framed. apply Z.eqb_neq. congruence.
Qed.

(** X6.  An idle framer ignores every byte up to the first ['$']: bytes of
    other protocols between sentences cause no call and leave it idle. *)
Theorem noise_is_ignored callbacks (data : list ascii) (st : St) :
  forallb (fun b => negb (byte_eqb b "$")) data = true ->
  NmeaParser.parse callbacks None data st = Ok (None, st, []).
Proof.
  induction data as [|byte rest IH]; intros Hd; [reflexivity|].
  cbn [forallb] in Hd. apply andb_prop in Hd as [H1 H2].
  apply negb_true_iff in H1.
  cbn [NmeaParser.parse]. unfold NmeaParser.parse_byte. rewrite H1.
  now rewrite (IH H2).
Qed.

End FramerTheorems.

Lemma parse_always_returns_witness :
  exists buffer1 st1 calls,
    NmeaParser.parse [(NmeaParser.re_gga, accept)]
      (Some (list_ascii_of_string "$GPG"))
      (list_ascii_of_string "GA,K1*00" ++ [CR; "255"%char; "$"%char; "G"%char])
      tt
    = Ok (buffer1, st1, calls) /\
    frame_opt_ok buffer1 = true.
Proof.
  apply parse_always_returns.
  - reflexivity.
  - repeat constructor.
Defined.

Lemma only_checked_frames_are_dispatched_witness :
  Forall dispatched_frame [NmeaParser.Call 0 "$GPGGA,K1*00"].
Proof.
  apply (only_checked_frames_are_dispatched
           [(NmeaParser.re_gga, accept)]
           (list_ascii_of_string "GA,K1*00" ++ [CR; "255"%char])
           (Some (list_ascii_of_string "$GPG")) None tt tt).
  - reflexivity.
  - vm_compute. reflexivity.
Defined.

Lemma valid_sentence_is_dispatched_witness :
  NmeaParser.parse [(NmeaParser.re_gga, accept)]
    (Some (list_ascii_of_string "$GPZZZ"))
    ("$"%char :: list_ascii_of_string "GPGGA,K1" ++ ["*"%char; "0"%char; "0"%char; CR])
    tt
  = match NmeaParser.run_callbacks 0 [(NmeaParser.re_gga, accept)]
            ("$"%char :: list_ascii_of_string "GPGGA,K1"
                         ++ ["*"%char; "0"%char; "0"%char]) tt with
    | Raise e => Raise e
    | Ok (st1, calls) => Ok (None, st1, calls)
    end.
Proof.
  apply valid_sentence_is_dispatched; vm_compute; reflexivity.
Defined.

Lemma bad_checksum_is_dropped_witness :
  NmeaParser.parse [(NmeaParser.re_gga, accept)] None
    ("$"%char :: list_ascii_of_string "GPGGA,K1" ++ ["*"%char; "Z"%char; "Z"%char; CR])
    tt
  = Ok (None, tt, []).
Proof.
  apply bad_checksum_is_dropped; vm_compute; congruence.
Defined.

Lemma noise_is_ignored_witness :
  NmeaParser.parse [(NmeaParser.re_gga, accept)] None
    ["181"%char; "098"%char; CR; "*"%char; "G"%char] tt
  = Ok (None, tt, []).
Proof. apply noise_is_ignored. reflexivity. Defined.

(** ** The fix-report decoder and the statistics: further properties *)

Lemma sumZ_insert (l : list Z) : forall (i : nat) (k : Z),
  l !! i = Some k -> sumZ (<[i := (k + 1)%Z]> l) = (sumZ l + 1)%Z.
Proof.
  unfold sumZ. induction l as [|x l IH]; intros i k; [discriminate|].
  destruct i as [|i].
  - cbn. intros [= <-]. lia.
  - intros E. specialize (IH _ _ E).
    change (<[S i := (k + 1)%Z]> (x :: l)) with (x :: <[i := (k + 1)%Z]> l).
    cbn [fold_right]. lia.
Qed.

Lemma count_epoch_ok (quality : Z) (s s1 : Stats) :
  count_epoch quality s = Ok s1 ->
  length (stat_epochs s1) = length (stat_epochs s) /\
  sumZ (stat_epochs s1) = (sumZ (stat_epochs s) + 1)%Z /\
  stat_total s1 = (stat_total s + 1)%Z /\
  stat_interval s1 = stat_interval s.
Proof.
  unfold count_epoch.
  destruct (_ || _)%bool; [discriminate|].
  destruct (stat_epochs s !! _) as [k|] eqn:E; [|discriminate].
  intros [= <-]. cbn [stat_epochs stat_total stat_interval].
  rewrite length_insert, (sumZ_insert _ _ _ E). auto.
Qed.

Lemma count_epoch_bounds (quality : Z) (s : Stats) :
  let n := Z.of_nat (length (stat_epochs s)) in
  ((quality < - n \/ n <= quality)%Z -> count_epoch quality s = Raise IndexError) /\
  ((- n <= quality < n)%Z -> is_ok (count_epoch quality s) = true).
Proof.
  cbv zeta. unfold count_epoch.
  set (n := Z.of_nat (length (stat_epochs s))).
  set (i := if (quality <? 0)%Z then (quality + n)%Z else quality).
  split; intros Hq.
  - assert (((i <? 0) || (n <=? i))%Z = true) as ->; [|reflexivity].
    subst i. destruct (quality <? 0)%Z eqn:E.
    + apply Z.ltb_lt in E. apply orb_true_iff. left. apply Z.ltb_lt. lia.
    + apply Z.ltb_ge in E. apply orb_true_iff. right. apply Z.leb_le. lia.
  - assert (Hi : (0 <= i < n)%Z).
    { subst i. destruct (quality <? 0)%Z eqn:E.
      - apply Z.ltb_lt in E. lia.
      - apply Z.ltb_ge in E. lia. }
    assert (((i <? 0) || (n <=? i))%Z = false) as ->.
    { apply orb_false_iff. split; [apply Z.ltb_ge | apply Z.leb_gt]; lia. }
    destruct (stat_epochs s !! Z.to_nat i) as [k|] eqn:E; [reflexivity|].
    apply lookup_ge_None in E. subst n. lia.
Qed.

Lemma decode_gga_short (sentence : string) :
  (length (split_comma sentence) <= 6)%nat ->
  decode_gga sentence = Raise IndexError.
Proof.
  intros L. unfold decode_gga, item.
  assert (nth_error (split_comma sentence) 6 = None) as ->; [|reflexivity].
  apply nth_error_None. exact L.
Qed.

(** ** The session: what each method changes *)

Section SessionMore.

Context `{Library}.

Lemma select_node_shape (c c1 : PointPerfectClient) (acts : list action) :
  select_node c = Ok (tt, c1, acts) ->
  exists t ns, c1 = set_spartn_topic t (set_new_server ns c).
Proof.
  rewrite select_node_eq.
  destruct (tile_dict c) as [d|].
  2:{ intros [= <- <-]. exists (spartn_topic c), (new_server c). now destruct c. }
  destruct (nearest _ _ _); [|discriminate].
  destruct (if localized c then _ else _); [|discriminate].
  destruct (negb _); intros [= <- <-].
  - eauto.
  - eexists _, (new_server c). now destruct c.
Qed.

Lemma handle_nmea_gga_parts (sentence : string) (c c1 : PointPerfectClient)
    (acts : list action) :
  handle_nmea_gga sentence c = Ok (tt, c1, acts) ->
  exists quality la lo c0,
    decode_gga sentence = Ok (quality, la, lo) /\
    update_stats quality c = Ok (tt, c0, []) /\
    on_quality quality la lo c0 = Ok (tt, c1, acts).
Proof.
  unfold handle_nmea_gga, bind at 1, lift.
  destruct (decode_gga sentence) as [[[quality la] lo]|]; [|discriminate].
  unfold bind.
  destruct (update_stats quality c) as [[[[] c0] acts0]|] eqn:Es; [|discriminate].
  destruct (on_quality quality la lo c0) as [[[[] c2] acts2]|] eqn:Eq;
    [|discriminate].
  intros [= <- <-]. exists quality, la, lo, c0.
  assert (acts0 = []) as ->.
  { revert Es. unfold update_stats, bind, get, lift, modify, ret.
    destruct (stats c) as [s|]; [|now intros [= <- <-]].
    destruct (count_epoch quality s); [|discriminate]. now intros [= <- <-]. }
  auto.
Qed.

Lemma update_stats_shape (quality : Z) (c c0 : PointPerfectClient)
    (acts : list action) :
  update_stats quality c = Ok (tt, c0, acts) ->
  (stats c = None /\ c0 = c) \/
  (exists s s1, stats c = Some s /\ count_epoch quality s = Ok s1 /\
                c0 = set_stats (Some s1) c).
Proof.
  unfold update_stats, bind, get, lift, modify, ret.
  destruct (stats c) as [s|] eqn:E; [|intros [= <- <-]; auto].
  destruct (count_epoch quality s) as [s1|] eqn:Ec; [|discriminate].
  intros [= <- <-]. right. eauto.
Qed.

(** What [on_quality] does to the client: the initialization topic, then
    what [process_position] does. *)
Lemma on_quality_shape (quality : Z) (la lo : Q) (c c1 : PointPerfectClient)
    (acts : list action) :
  on_quality quality la lo c = Ok (tt, c1, acts) ->
  (exists a, c1 = set_assist_now_topic a c) \/
  (exists a acts1, process_position la lo (set_assist_now_topic a c)
                   = Ok (tt, c1, acts1)).
Proof.
  rewrite on_quality_eq. destruct (_ || _)%bool.
  - destruct (truthy_opt (assist_now_topic c)); intros [= <- <-]; left.
    + exists (assist_now_topic c). now destruct c.
    + eauto.
  - destruct (process_position la lo (assist_cleared c))
      as [[[[] c3] acts3]|] eqn:Ep; [|discriminate].
    intros [= <- <-]. right. unfold assist_cleared in Ep.
    destruct (_ && _)%bool; [eauto|].
    exists (assist_now_topic c), acts3.
    replace (set_assist_now_topic (assist_now_topic c) c) with c
      by now destruct c.
    exact Ep.
Qed.

(** What [process_position] does to the tracked attributes. *)
Lemma process_position_shape (la lo : Q) (c c1 : PointPerfectClient)
    (acts : list action) :
  process_position la lo c = Ok (tt, c1, acts) ->
  (localized c = true /\ must_recompute la lo c = false /\
   c1 = set_epoch_count (epoch_count c + 1) c) \/
  (localized c = true /\ must_recompute la lo c = true /\
   exists new t ns,
     get_tile_topic c la lo = Ok new /\
     c1 = set_spartn_topic t
            (set_new_server ns (set_tile_topic new (recorded_position la lo c)))) \/
  (localized c = false /\
   (c1 = c \/
    exists t ns d,
      c1 = set_spartn_topic t
             (set_new_server ns (set_tile_dict d (set_position la lo c))))).
Proof.
  rewrite process_position_eq.
  destruct (localized c).
  - destruct (must_recompute la lo c); [|intros [= <- <-]; auto].
    destruct (get_tile_topic c la lo) as [new|]; [|discriminate].
    destruct (negb _) eqn:En.
    + intros [= <- <-]. right. left. split; [reflexivity|]. split; [reflexivity|].
      exists new, (spartn_topic c), (new_server c).
      split; [reflexivity|]. now destruct c.
    + intros E. apply select_node_shape in E as [t [ns ->]].
      right. left. split; [reflexivity|]. split; [reflexivity|].
      exists new, t, ns. split; [reflexivity|].
      apply negb_false_iff, String.eqb_eq in En. subst new. now destruct c.
  - destruct (negb _).
    + intros E. apply select_node_shape in E as [t [ns ->]].
      right. right. split; [reflexivity|]. right. eauto.
    + intros [= <- <-]. right. right. auto.
Qed.

Lemma get_tile_topic_level (c c1 : PointPerfectClient) (la lo : Q) :
  tile_level c1 = tile_level c -> get_tile_topic c1 la lo = get_tile_topic c la lo.
Proof. intros E. unfold get_tile_topic. now rewrite E. Qed.

Lemma process_position_keeps_epoch (la lo : Q) :
  client_keeps epoch_ok (process_position la lo).
Proof.
  intros c c1 acts [H0 He] E.
  apply process_position_shape in E
    as [[L [R ->]]|[[L [R [new [t [ns [_ ->]]]]]]|[L [->|[t [ns [d ->]]]]]]].
  - split; cbn; [lia|]. intros e Ee Hpos.
    unfold must_recompute in R. apply orb_false_iff in R as [_ R].
    rewrite Ee in R. cbn in R. now apply Qltb_ge in R.
  - split; cbn; [lia|]. intros e _ Hpos. exact Hpos.
  - split; assumption.
  - split; cbn; assumption.
Qed.

Lemma process_position_keeps_tile (la lo : Q) :
  client_keeps tile_ok (process_position la lo).
Proof.
  intros c c1 acts Ht E.
  apply process_position_shape in E
    as [[L [R ->]]|[[L [R [new [t [ns [G ->]]]]]]|[L [->|[t [ns [d ->]]]]]]].
  - destruct Ht as [Ht|[Hl Ht]]; [left; exact Ht|right].
    split; [exact Hl|]. exact Ht.
  - right. split; [exact L|]. cbn [lat lon tile_topic set_spartn_topic
      set_new_server set_tile_topic]. exact G.
  - exact Ht.
  - destruct Ht as [Ht|[Hl _]]; [left; exact Ht | congruence].
Qed.

Lemma on_quality_keeps_client (P : PointPerfectClient -> Prop)
    (quality : Z) (la lo : Q) :
  (forall a c, P c -> P (set_assist_now_topic a c)) ->
  client_keeps P (process_position la lo) ->
  client_keeps P (on_quality quality la lo).
Proof.
  intros Ha Hp c c1 acts Pc E.
  apply on_quality_shape in E as [[a ->]|[a [acts1 E]]]; [auto|].
  eapply Hp; [|exact E]. auto.
Qed.

Lemma handle_nmea_gga_keeps_client (P : PointPerfectClient -> Prop)
    (sentence : string) :
  (forall a c, P c -> P (set_assist_now_topic a c)) ->
  (forall quality c c0 acts,
     P c -> update_stats quality c = Ok (tt, c0, acts) -> P c0) ->
  (forall la lo, client_keeps P (process_position la lo)) ->
  client_keeps P (handle_nmea_gga sentence).
Proof.
  intros Ha Hs Hp c c1 acts Pc E.
  apply handle_nmea_gga_parts in E as [q [la [lo [c0 [_ [Es Eq]]]]]].
  eapply on_quality_keeps_client; [exact Ha|apply Hp| |exact Eq].
  eapply Hs; eauto.
Qed.

Lemma on_mqtt_connect_shape (rc : Z) (c c1 : PointPerfectClient)
    (acts : list action) :
  on_mqtt_connect rc c = Ok (tt, c1, acts) ->
  exists b, c1 = set_connected b c.
Proof.
  unfold on_mqtt_connect, bind, get, modify, emit, ret.
  destruct (rc =? 0)%Z.
  - cbn [set_connected mqtt_topics spartn_topic assist_now_topic].
    destruct (mqtt_topics c); destruct (truthy (spartn_topic c));
      destruct (assist_now_topic c) as [t|]; try destruct (truthy t);
      intros [= <- <-]; eauto.
  - intros [= <- <-]. exists (connected c). now destruct c.
Qed.

Lemma on_mqtt_disconnect_shape (rc : Z) (c c1 : PointPerfectClient)
    (acts : list action) :
  on_mqtt_disconnect rc c = Ok (tt, c1, acts) ->
  exists srv ns, c1 = set_new_server ns (set_mqtt_server srv (set_connected false c)).
Proof.
  unfold on_mqtt_disconnect, bind, get, modify, emit, ret. cbn.
  destruct (new_server c) as [srv|] eqn:En; [destruct (truthy srv)|];
    intros [= <- <-].
  - eauto.
  - exists (mqtt_server c), (Some srv). destruct c; cbn in *. now subst.
  - exists (mqtt_server c), None. destruct c; cbn in *. now subst.
Qed.

Lemma on_mqtt_message_shape (topic : string) (payload : list ascii)
    (c c1 : PointPerfectClient) (acts : list action) :
  on_mqtt_message topic payload c = Ok (tt, c1, acts) ->
  (exists a, c1 = set_assist_now_topic a c) \/
  (exists t ns d, c1 = set_spartn_topic t (set_new_server ns (set_tile_dict d c))).
Proof.
  unfold on_mqtt_message. unfold bind at 1, get.
  assert (Same : exists a, c = set_assist_now_topic a c).
  { exists (assist_now_topic c). now destruct c. }
  destruct (startswith _ topic).
  { unfold emit. intros [= <- <-]. now left. }
  destruct (startswith "/pp/ubx/" topic).
  { unfold bind, emit, modify, ret.
    destruct (String.eqb topic "/pp/ubx/mga"); intros [= <- <-]; left; eauto. }
  destruct (startswith "pp/ip" topic).
  { destruct (endswith "/dict" topic).
    - unfold process_tile_data.
      destruct (json_loads payload) as [d|]; [|discriminate].
      unfold bind, modify.
      destruct (select_node (set_tile_dict d c)) as [[[[] c3] acts3]|] eqn:Es;
        [|discriminate].
      intros [= <- <-]. apply select_node_shape in Es as [t [ns ->]].
      right. eauto.
    - unfold emit. intros [= <- <-]. now left. }
  unfold ret. intros [= <- <-]. now left.
Qed.

(** A property of the client that the methods keep holds all along a
    session. *)
Lemma run_keeps_client (P : PointPerfectClient -> Prop) :
  (forall sentence, client_keeps P (handle_nmea_gga sentence)) ->
  (forall rc, client_keeps P (on_mqtt_connect rc)) ->
  (forall rc, client_keeps P (on_mqtt_disconnect rc)) ->
  (forall topic payload, client_keeps P (on_mqtt_message topic payload)) ->
  forall evs s s1, P (client s) -> run evs s = Ok s1 -> P (client s1).
Proof.
  intros Hh Hc Hd Hm. induction evs as [|ev evs IH]; intros s s1 Ps; cbn [run].
  - now intros [= <-].
  - destruct (step ev s) as [s2|] eqn:E; [|discriminate].
    intros Hr. eapply IH; [|exact Hr]. clear Hr IH.
    destruct ev as [data|rc|rc|topic payload]; cbn [step] in E.
    + destruct (feed (frame s) data (client s)) as [[[b c1] acts]|] eqn:Ef;
        [|discriminate].
      injection E as <-. cbn [client]. revert Ef. unfold feed.
      destruct (NmeaParser.parse handlers (frame s) data (client s, []))
        as [[[b2 st2] calls2]|] eqn:Ep; [|discriminate].
      intros [= <- <- <-].
      eapply (parse_keeps (fun st => P (fst st))); [| |exact Ep]; [|exact Ps].
      unfold handlers. constructor; [|constructor].
      cbn [snd]. intros text [c2 log] st1 Hp. unfold as_callback. cbn [fst snd] in *.
      destruct (handle_nmea_gga text c2) as [[[[] c3] acts3]|] eqn:Eh;
        [|discriminate].
      intros [= <-]. cbn [fst]. eapply Hh; eauto.
    + destruct (on_mqtt_connect rc (client s)) as [[[[] c1] acts]|] eqn:Ef;
        [|discriminate].
      injection E as <-. cbn [client]. eapply Hc; eauto.
    + destruct (on_mqtt_disconnect rc (client s)) as [[[[] c1] acts]|] eqn:Ef;
        [|discriminate].
      injection E as <-. cbn [client]. eapply Hd; eauto.
    + destruct (on_mqtt_message topic payload (client s)) as [[[[] c1] acts]|] eqn:Ef;
        [|discriminate].
      injection E as <-. cbn [client]. eapply Hm; eauto.
Qed.

(** A property that reads only attributes the callbacks of the MQTT
    library leave alone holds all along a session once [process_position]
    and the statistics keep it. *)
Lemma run_keeps_tracking (P : PointPerfectClient -> Prop) :
  (forall a c, P c -> P (set_assist_now_topic a c)) ->
  (forall b c, P c -> P (set_connected b c)) ->
  (forall v c, P c -> P (set_mqtt_server v c)) ->
  (forall v c, P c -> P (set_new_server v c)) ->
  (forall v c, P c -> P (set_spartn_topic v c)) ->
  (forall v c, P c -> P (set_tile_dict v c)) ->
  (forall quality c c0 acts,
     P c -> update_stats quality c = Ok (tt, c0, acts) -> P c0) ->
  (forall la lo, client_keeps P (process_position la lo)) ->
  forall evs s s1, P (client s) -> run evs s = Ok s1 -> P (client s1).
Proof.
  intros Ha Hb Hv Hn Hsp Htd Hs Hp. apply run_keeps_client.
  - intros sentence. now apply handle_nmea_gga_keeps_client.
  - intros rc c c1 acts Pc E. apply on_mqtt_connect_shape in E as [b ->]. auto.
  - intros rc c c1 acts Pc E.
    apply on_mqtt_disconnect_shape in E as [srv [ns ->]]. auto.
  - intros topic payload c c1 acts Pc E.
    apply on_mqtt_message_shape in E as [[a ->]|[t [ns [d ->]]]]; auto.
Qed.

End SessionMore.

Section SessionAssist.

Context `{Library}.

Lemma assist_shrinks_refl subs : assist_shrinks subs subs.
Proof. intros t E. exact E. Qed.

Lemma assist_shrinks_trans a b c :
  assist_shrinks a b -> assist_shrinks b c -> assist_shrinks a c.
Proof. intros Hab Hbc t E. auto. Qed.

Lemma assist_shrinks_delete t subs : assist_shrinks (delete t subs) subs.
Proof. intros t1 E. apply lookup_delete_Some in E. tauto. Qed.

Lemma assist_shrinks_insert t p subs :
  p <> AssistNow -> assist_shrinks (<[t := p]> subs) subs.
Proof.
  intros N t1 E. apply lookup_insert_Some in E as [[_ E]|[_ E]]; congruence.
Qed.

Lemma assist_shrinks_empty subs : assist_shrinks ∅ subs.
Proof. intros t E. rewrite lookup_empty in E. discriminate. Qed.

Lemma assist_shrinks_key_topics (topics : list (string * Z)) : forall subs,
  assist_shrinks (deliver (SubscribeList topics) subs) subs.
Proof.
  cbn [deliver]. induction topics as [|tq l IH]; intros subs; cbn [fold_left].
  - apply assist_shrinks_refl.
  - eapply assist_shrinks_trans; [apply IH|].
    apply assist_shrinks_insert; discriminate.
Qed.

Lemma assist_ok_shrinks (c c1 : PointPerfectClient) subs subs1 :
  assist_now_topic c1 = assist_now_topic c ->
  assist_shrinks subs1 subs -> assist_ok c subs -> assist_ok c1 subs1.
Proof.
  intros E S [H3 Hs]. unfold assist_ok. rewrite E. split; [exact H3|].
  intros t Et. apply Hs. now apply S.
Qed.

Lemma assist_ok_empty (c : PointPerfectClient) :
  (assist_now_topic c = None \/
   assist_now_topic c = Some "/pp/ubx/mga" \/
   assist_now_topic c = Some "/pp/ubx/mga/updates") ->
  assist_ok c ∅.
Proof.
  intros H3. split; [exact H3|]. intros t E. rewrite lookup_empty in E.
  discriminate.
Qed.

(** Subscribing to the recorded initialization topic. *)
Lemma assist_ok_subscribe (c : PointPerfectClient) subs t :
  assist_now_topic c = Some t ->
  assist_ok c subs -> assist_ok c (<[t := AssistNow]> subs).
Proof.
  intros E [H3 Hs]. split; [exact H3|]. intros t1 E1.
  apply lookup_insert_Some in E1 as [[<- _]|[_ E1]]; auto.
Qed.

Lemma select_node_keeps_assist : keeps assist_ok select_node.
Proof.
  intros c subs c1 acts Hc. rewrite select_node_eq.
  destruct (tile_dict c) as [d|]; [|intros [= <- <-]; exact Hc].
  destruct (nearest _ _ _); [|discriminate].
  destruct (if localized c then _ else _); [|discriminate].
  destruct (negb _); intros [= <- <-].
  - cbn. apply (assist_ok_shrinks c _ subs);
      [reflexivity|apply assist_shrinks_empty|exact Hc].
  - destruct (truthy (spartn_topic c)); cbn;
      apply (assist_ok_shrinks c _ subs); try reflexivity; try exact Hc;
      repeat first
        [ apply assist_shrinks_refl
        | apply assist_shrinks_delete
        | eapply assist_shrinks_trans;
          [apply assist_shrinks_insert; discriminate|] ].
Qed.

Lemma process_position_keeps_assist (la lo : Q) :
  keeps assist_ok (process_position la lo).
Proof.
  intros c subs c1 acts Hc. rewrite process_position_eq.
  destruct (localized c).
  - destruct (must_recompute la lo c).
    2:{ intros [= <- <-]. exact Hc. }
    destruct (get_tile_topic c la lo) as [new|]; [|discriminate].
    destruct (negb _).
    + intros [= <- <-].
      destruct (truthy (tile_topic c)); cbn;
        apply (assist_ok_shrinks c _ subs); try reflexivity; try exact Hc;
        repeat first
          [ apply assist_shrinks_refl
          | apply assist_shrinks_delete
          | eapply assist_shrinks_trans;
            [apply assist_shrinks_insert; discriminate|] ].
    + apply select_node_keeps_assist. exact Hc.
  - destruct (negb _).
    + apply select_node_keeps_assist. exact Hc.
    + intros [= <- <-]. exact Hc.
Qed.

Lemma on_quality_keeps_assist (quality : Z) (la lo : Q) :
  keeps assist_ok (on_quality quality la lo).
Proof.
  intros c subs c1 acts Hc. rewrite on_quality_eq.
  destruct ((quality =? 0) || (quality =? 6))%Z.
  - destruct (truthy_opt (assist_now_topic c)) eqn:Ta; intros [= <- <-];
      [exact Hc|].
    cbn. destruct Hc as [H3 Hs]. split; [auto|].
    intros t E. apply lookup_insert_Some in E as [[<- _]|[_ E]]; [reflexivity|].
    apply Hs in E. rewrite E in Ta.
    destruct H3 as [H3|[H3|H3]]; rewrite H3 in E; try discriminate;
      injection E as <-; discriminate.
  - destruct (process_position la lo (assist_cleared c))
      as [[[[] c3] acts3]|] eqn:Ep; [|discriminate].
    intros [= <- <-]. rewrite deliver_all_app.
    eapply process_position_keeps_assist; [|exact Ep].
    unfold assist_cleared, assist_unsubscribed, truthy_opt.
    destruct (assist_now_topic c) as [t|] eqn:Et; [|exact Hc].
    destruct (truthy t && negb (assist_now c)); [|exact Hc].
    cbn. destruct Hc as [H3 Hs]. split; [auto|].
    intros t1 E. apply lookup_delete_Some in E as [N E]. apply Hs in E.
    congruence.
Qed.

Lemma handle_nmea_gga_keeps_assist (sentence : string) :
  keeps assist_ok (handle_nmea_gga sentence).
Proof.
  intros c subs c1 acts Hc E.
  apply handle_nmea_gga_parts in E as [q [la [lo [c0 [_ [Es Eq]]]]]].
  eapply on_quality_keeps_assist; [|exact Eq].
  apply update_stats_shape in Es as [[_ ->]|[s [s1 [_ [_ ->]]]]]; exact Hc.
Qed.

Lemma on_mqtt_connect_keeps_assist (rc : Z) : keeps assist_ok (on_mqtt_connect rc).
Proof.
  intros c subs c1 acts Hc.
  unfold on_mqtt_connect, bind, get, modify, emit, ret.
  destruct (rc =? 0)%Z; [|intros [= <- <-]; exact Hc].
  cbn [set_connected mqtt_topics spartn_topic assist_now_topic].
  assert (K : forall l subs0, assist_ok c subs0 ->
              assist_ok c
                (fold_left (fun m (tq : string * Z) => <[fst tq := KeyTopic]> m)
                   l subs0)).
  { intros l subs0. apply assist_ok_shrinks; [reflexivity|].
    apply (assist_shrinks_key_topics l). }
  assert (I : forall t p subs0, p <> AssistNow -> assist_ok c subs0 ->
                assist_ok c (<[t := p]> subs0)).
  { intros t p subs0 N. apply assist_ok_shrinks; [reflexivity|].
    now apply assist_shrinks_insert. }
  destruct (mqtt_topics c) as [|tq l] eqn:Em;
    destruct (truthy (spartn_topic c)) eqn:Ts;
    destruct (assist_now_topic c) as [t|] eqn:Ea; try destruct (truthy t);
    intros [= <- <-];
    cbn [app deliver_all fold_left deliver];
    apply (assist_ok_shrinks c _ _ _ eq_refl (assist_shrinks_refl _));
    repeat first
      [ exact Hc
      | apply K
      | apply assist_ok_subscribe; [exact Ea|]
      | apply I; [discriminate|] ].
Qed.

Lemma on_mqtt_message_keeps_assist (topic : string) (payload : list ascii) :
  keeps assist_ok (on_mqtt_message topic payload).
Proof.
  intros c subs c1 acts Hc. unfold on_mqtt_message. unfold bind at 1, get.
  destruct (startswith _ topic).
  { unfold emit. intros [= <- <-]. exact Hc. }
  destruct (startswith "/pp/ubx/" topic).
  { unfold bind, emit, modify, ret.
    destruct (String.eqb topic "/pp/ubx/mga"); intros [= <- <-]; [|exact Hc].
    cbn [app deliver_all fold_left deliver].
    destruct Hc as [H3 Hs]. split; [cbn; auto|].
    intros t E. apply lookup_insert_Some in E as [[<- _]|[N2 E]]; [reflexivity|].
    apply lookup_delete_Some in E as [N E]. apply Hs in E. exfalso.
    destruct H3 as [H3|[H3|H3]]; rewrite H3 in E; congruence. }
  destruct (startswith "pp/ip" topic).
  { destruct (endswith "/dict" topic).
    - unfold process_tile_data.
      destruct (json_loads payload) as [d|]; [|discriminate].
      unfold bind, modify.
      destruct (select_node (set_tile_dict d c)) as [[[[] c3] acts3]|] eqn:Es;
        [|discriminate].
      intros [= <- <-]. cbn [app].
      eapply select_node_keeps_assist; [|exact Es]. exact Hc.
    - unfold emit. intros [= <- <-]. exact Hc. }
  unfold ret. intros [= <- <-]. exact Hc.
Qed.

Lemma run_keeps_assist (evs : list event) : forall s s1,
  assist_ok (client s) (active s) -> run evs s = Ok s1 ->
  assist_ok (client s1) (active s1).
Proof.
  induction evs as [|ev evs IH]; intros s s1 Hc; cbn [run].
  - now intros [= <-].
  - destruct (step ev s) as [s2|] eqn:E; [|discriminate].
    intros Hr. eapply IH; [|exact Hr]. clear Hr IH.
    destruct ev as [data|rc|rc|topic payload]; cbn [step] in E.
    + destruct (feed (frame s) data (client s)) as [[[b c1] acts]|] eqn:Ef;
        [|discriminate].
      injection E as <-. cbn [client active]. revert Ef. unfold feed.
      destruct (NmeaParser.parse handlers (frame s) data (client s, []))
        as [[[b2 st2] calls2]|] eqn:Ep; [|discriminate].
      intros [= <- <- <-].
      eapply (parse_keeps
                (fun st => assist_ok (fst st) (deliver_all (snd st) (active s))));
        [| |exact Ep]; [|exact Hc].
      unfold handlers. constructor; [|constructor].
      cbn [snd]. intros text [c2 log] st1 Hp. unfold as_callback. cbn [fst snd] in *.
      destruct (handle_nmea_gga text c2) as [[[[] c3] acts3]|] eqn:Eh;
        [|discriminate].
      intros [= <-]. cbn [fst snd]. rewrite deliver_all_app.
      eapply handle_nmea_gga_keeps_assist; eauto.
    + destruct (on_mqtt_connect rc (client s)) as [[[[] c1] acts]|] eqn:Ef;
        [|discriminate].
      injection E as <-. cbn [client active].
      eapply on_mqtt_connect_keeps_assist; eauto.
    + destruct (on_mqtt_disconnect rc (client s)) as [[[[] c1] acts]|] eqn:Ef;
        [|discriminate].
      injection E as <-. cbn [client active].
      rewrite (on_mqtt_disconnect_actions _ _ _ _ Ef).
      apply on_mqtt_disconnect_shape in Ef as [srv [ns ->]].
      apply assist_ok_empty. exact (proj1 Hc).
    + destruct (on_mqtt_message topic payload (client s)) as [[[[] c1] acts]|] eqn:Ef;
        [|discriminate].
      injection E as <-. cbn [client active].
      eapply on_mqtt_message_keeps_assist; eauto.
Qed.

End SessionAssist.

(** ** Statistics, decoding and tile naming: further properties *)

Section FixReports.

Context `{Library}.

(** X7.  All along a session the counters of the statistics add up to the
    total: every fix report that is counted adds one to one counter and
    one to the total. *)
Theorem stats_total_is_sum (evs : list event) (s s1 : session) :
  stats_ok (client s) -> run evs s = Ok s1 -> stats_ok (client s1).
Proof.
  apply run_keeps_tracking; try (intros v c P; exact P).
  - intros quality c c0 acts P E.
    apply update_stats_shape in E as [[_ ->]|[st [st1 [Es [Ec ->]]]]]; [exact P|].
    unfold stats_ok in *. rewrite Es in P. cbn.
    apply count_epoch_ok in Ec as [_ [S1 [T1 _]]]. lia.
  - intros la lo c c1 acts P E.
    apply process_position_shape in E
      as [[L [R ->]]|[[L [R [new [t [ns [_ ->]]]]]]|[L [->|[t [ns [d ->]]]]]]];
      exact P.
Qed.

(** X8.  With statistics on, a fix report whose quality code is not an
    index of the counters, below minus their number or at least their
    number, makes [handle_nmea_gga] raise [IndexError] before anything is
    subscribed; every other code, a negative one counting from the end, is
    counted. *)
Theorem stats_need_a_known_quality (sentence : string) (c : PointPerfectClient)
    (s : Stats) (quality : Z) (la lo : Q) :
  stats c = Some s ->
  decode_gga sentence = Ok (quality, la, lo) ->
  let n := Z.of_nat (length (stat_epochs s)) in
  ((quality < - n \/ n <= quality)%Z ->
   handle_nmea_gga sentence c = Raise IndexError) /\
  ((- n <= quality < n)%Z ->
   exists s1, update_stats quality c = Ok (tt, set_stats (Some s1) c, []) /\
              stat_total s1 = (stat_total s + 1)%Z).
Proof.
  intros Es Ed n. pose proof (count_epoch_bounds quality s) as [Out In].
  split; intros Hq.
  - unfold handle_nmea_gga, bind at 1, lift. rewrite Ed.
    unfold bind at 1. unfold update_stats, bind, get, lift. rewrite Es.
    now rewrite (Out Hq).
  - specialize (In Hq). unfold update_stats, bind, get, lift, modify. rewrite Es.
    destruct (count_epoch quality s) as [s1|] eqn:Ec; [|discriminate].
    exists s1. split; [reflexivity|]. now apply count_epoch_ok in Ec.
Qed.

(** X9.  A GGA sentence with a valid checksum and fewer than seven
    comma-separated fields makes the read loop's call of the framer raise
    [IndexError]: the handler indexes the seventh field first. *)
Theorem short_gga_sentence_raises (c : PointPerfectClient)
    (buffer0 : option (list ascii)) (body : list ascii) (h l : ascii) :
  let frame := ("$"%char :: body ++ ["*"%char; h; l]) in
  forallb NmeaParser.in_class body = true ->
  NmeaParser.in_class h = true -> NmeaParser.in_class l = true ->
  NmeaParser.chksum_received h l = NmeaParser.xor_bytes body ->
  NmeaParser.re_gga frame = true ->
  (length (split_comma (string_of_list_ascii frame)) <= 6)%nat ->
  feed buffer0 (frame ++ [CR]) c = Raise IndexError.
Proof.
  cbv zeta. intros Hb Hh Hl Hc Hre Hn. unfold feed.
  change (("$"%char :: body ++ ["*"%char; h; l]) ++ [CR])
    with ("$"%char :: (body ++ ["*"%char; h; l]) ++ [CR]).
  rewrite <- app_assoc. cbn [app].
  rewrite parse_sentence by assumption.
  rewrite on_cr_valid.
  2:{ rewrite checksum_valid_framed, Hc. apply Z.eqb_refl. }
  unfold handlers. cbn [NmeaParser.run_callbacks]. rewrite Hre.
  rewrite frame_ok_decodes.
  2:{ cbn [frame_ok]. change (byte_eqb "$" "$") with true. cbn [andb].
      rewrite forallb_app, Hb. cbn. now rewrite Hh, Hl. }
  unfold as_callback. cbn [fst].
  unfold handle_nmea_gga, bind at 1, lift.
  now rewrite (decode_gga_short _ Hn).
Qed.

End FixReports.

Lemma stats_total_is_sum_witness :
  exists s1,
    run (H := sample_library) counting_events (fresh counting_client None) = Ok s1 /\
    stats_ok (client s1) /\
    stat_total <$> stats (client s1) = Some 4%Z.
Proof.
  destruct (run (H := sample_library) counting_events (fresh counting_client None))
    as [s1|] eqn:E.
  - exists s1. split; [reflexivity|]. split.
    + apply (@stats_total_is_sum sample_library counting_events
               (fresh counting_client None) s1);
        [vm_compute; reflexivity | exact E].
    + vm_compute in E. injection E as <-. reflexivity.
  - vm_compute in E. discriminate.
Defined.

Lemma stats_need_a_known_quality_witness :
  handle_nmea_gga (H := sample_library)
    "$GPGGA,123519,4807.038,N,01131.000,E,9,08,0.9,545.4,M,46.9,M,,*4F"
    counting_client
  = Raise IndexError.
Proof.
  refine (proj1 (@stats_need_a_known_quality sample_library _ counting_client
                   {| stat_epochs := repeat 0%Z 9; stat_total := 0;
                      stat_interval := 5 |}
                   9%Z (2887038 # 60000)%Q (691000 # 60000)%Q _ _) _).
  - reflexivity.
  - vm_compute. reflexivity.
  - right. vm_compute. discriminate.
Defined.

Lemma short_gga_sentence_raises_witness :
  feed (H := sample_library) None
    (list_ascii_of_string "$GPGGA,K1*00" ++ [CR]) sample_client
  = Raise IndexError.
Proof.
  apply (@short_gga_sentence_raises sample_library sample_client None
           (list_ascii_of_string "GPGGA,K1") "0"%char "0"%char);
    vm_compute; first [reflexivity | lia | congruence].
Defined.

(** ** Tile naming and node search: further properties *)

Lemma cell_center_injective (level k1 k2 : Z) :
  cell_center_hundredths level k1 = cell_center_hundredths level k2 -> k1 = k2.
Proof.
  unfold cell_center_hundredths. destruct level as [|[p|p|]|]; lia.
Qed.

(** X10.  For latitudes in [-100, 100), longitudes in [-1000, 1000) and a
    tile level 0, 1 or 2, two positions have the same tile topic exactly
    when they lie in the same tile: the topic names the tile. *)
Theorem tile_topic_names_the_tile (c : PointPerfectClient) (delta : Q)
    (la lo la' lo' : Q) :
  (tile_level c = 0 \/ tile_level c = 1 \/ tile_level c = 2)%Z ->
  tile_delta (tile_level c) = Ok delta ->
  (-100 <= la)%Q -> (la < 100)%Q -> (-1000 <= lo)%Q -> (lo < 1000)%Q ->
  (-100 <= la')%Q -> (la' < 100)%Q -> (-1000 <= lo')%Q -> (lo' < 1000)%Q ->
  (get_tile_topic c la lo = get_tile_topic c la' lo' <->
   Qfloor (la / delta) = Qfloor (la' / delta) /\
   Qfloor (lo / delta) = Qfloor (lo' / delta)).
Proof.
  intros Hl Hd L1 U1 L2 U2 L1' U1' L2' U2'.
  assert (E : exists cells, level_edge (tile_level c) delta cells).
  { destruct Hl as [El | [El | El]]; rewrite El in Hd |- *;
      injection Hd as <-; eexists; constructor. }
  destruct E as [cells E].
  rewrite !(get_tile_topic_cell c _ _ _ _ _ eq_refl E).
  split.
  - intros Et0.
    assert (Et : topic_of_cell (tile_level c) (Qfloor (la / delta))
                   (Qfloor (lo / delta))
                 = topic_of_cell (tile_level c) (Qfloor (la' / delta))
                     (Qfloor (lo' / delta))) by congruence.
    clear Et0.
    assert (B : forall x, (-100 <= x)%Q -> (x < 100)%Q ->
              (- Z.of_nat (10 * cells) <= Qfloor (x / delta)
               < Z.of_nat (10 * cells))%Z).
    { intros x Lx Ux. apply (cell_bounds _ _ _ x 10 E);
        change (inject_Z (Z.of_nat 10)) with 10%Q; lra. }
    assert (B' : forall x, (-1000 <= x)%Q -> (x < 1000)%Q ->
              (- Z.of_nat (100 * cells) <= Qfloor (x / delta)
               < Z.of_nat (100 * cells))%Z).
    { intros x Lx Ux. apply (cell_bounds _ _ _ x 100 E);
        change (inject_Z (Z.of_nat 100)) with 100%Q; lra. }
    pose proof (level_parts_read_cell _ _ _ _ Hl (level_edge_checked _ _ _ E)
                  (B la L1 U1) (B' lo L2 U2)) as R1.
    pose proof (level_parts_read_cell _ _ _ _ Hl (level_edge_checked _ _ _ E)
                  (B la' L1' U1') (B' lo' L2' U2')) as R2.
    rewrite Et in R1. rewrite R1 in R2. injection R2 as E1 E2.
    split; eapply cell_center_injective; eauto.
  - intros [-> ->]. reflexivity.
Qed.

(** X11.  [get_tile_topic] returns exactly for the tile levels -3 to 2,
    the indexes of the list of edges; for any other level it raises
    [IndexError], and so does [process_position] in localized mode when it
    has to record the position. *)
Theorem tile_level_must_index_the_edges `{Library} (c : PointPerfectClient)
    (la lo : Q) :
  ((-3 <= tile_level c <= 2)%Z -> is_ok (get_tile_topic c la lo) = true) /\
  (~ (-3 <= tile_level c <= 2)%Z ->
   get_tile_topic c la lo = Raise IndexError /\
   (localized c = true -> must_recompute la lo c = true ->
    process_position la lo c = Raise IndexError)).
Proof.
  assert (D : (-3 <= tile_level c <= 2)%Z /\ is_ok (tile_delta (tile_level c)) = true
              \/ ~ (-3 <= tile_level c <= 2)%Z /\
                 tile_delta (tile_level c) = Raise IndexError).
  { unfold tile_delta.
    destruct (Z_lt_dec (tile_level c) (-3)) as [Lo|Lo].
    { right. split; [lia|].
      assert ((tile_level c <? 0)%Z = true) as -> by (apply Z.ltb_lt; lia).
      assert ((tile_level c + 3 <? 0)%Z = true) as -> by (apply Z.ltb_lt; lia).
      reflexivity. }
    destruct (Z_lt_dec 2 (tile_level c)) as [Hi|Hi].
    { right. split; [lia|].
      assert ((tile_level c <? 0)%Z = false) as -> by (apply Z.ltb_ge; lia).
      assert ((tile_level c <? 0)%Z = false) as -> by (apply Z.ltb_ge; lia).
      destruct (nth_error _ (Z.to_nat (tile_level c))) eqn:N; [|reflexivity].
      exfalso.
      assert (N' : nth_error [10 # 1; 5 # 1; 5 # 2]%Q (Z.to_nat (tile_level c))
                   <> None) by (rewrite N; discriminate).
      apply nth_error_Some in N'. cbn [length] in N'. lia. }
    left. split; [lia|].
    assert (tile_level c = -3 \/ tile_level c = -2 \/ tile_level c = -1 \/
            tile_level c = 0 \/ tile_level c = 1 \/ tile_level c = 2)%Z
      as [-> | [-> | [-> | [-> | [-> | ->]]]]] by lia; reflexivity. }
  destruct D as [[In D]|[Out D]]; split; intros Hyp; try contradiction.
  - unfold get_tile_topic. destruct (tile_delta (tile_level c)); [|discriminate].
    reflexivity.
  - assert (G : get_tile_topic c la lo = Raise IndexError).
    { unfold get_tile_topic. now rewrite D. }
    split; [exact G|]. intros L R. rewrite process_position_eq, L, R, G.
    reflexivity.
Qed.

Lemma tile_topic_names_the_tile_witness :
  get_tile_topic sample_client 48.1173 11.5167 = get_tile_topic sample_client 49.9 12.4 <->
  Qfloor (48.1173 / (5 # 2)) = Qfloor (49.9 / (5 # 2)) /\
  Qfloor (11.5167 / (5 # 2)) = Qfloor (12.4 / (5 # 2)).
Proof.
  apply (tile_topic_names_the_tile sample_client (5 # 2)%Q);
    first [ right; right; reflexivity
          | reflexivity
          | vm_compute; discriminate ].
Defined.

Lemma tile_level_must_index_the_edges_witness :
  is_ok (get_tile_topic (set_tile_dict None sample_client) 48 11) = true /\
  process_position (H := sample_library) 48 11
    (fst (init (H := sample_library) "pp.services.u-blox.com" 8883 true 3
            false None 50000 None None false))
  = Raise IndexError.
Proof.
  split.
  - apply (proj1 (@tile_level_must_index_the_edges sample_library
                    (set_tile_dict None sample_client) 48 11)).
    vm_compute. split; discriminate.
  - apply (proj2 (@tile_level_must_index_the_edges sample_library
                    (fst (init (H := sample_library) "pp.services.u-blox.com"
                            8883 true 3 false None 50000 None None false))
                    48 11)).
    + vm_compute. intros [_ N]. now apply N.
    + reflexivity.
    + vm_compute. reflexivity.
Defined.

Lemma string_length_append (a b : string) :
  String.length (a +:+ b) = (String.length a + String.length b)%nat.
Proof.
  induction a as [|c a IH]; [reflexivity|].
  rewrite append_cons. cbn [String.length]. now rewrite IH.
Qed.

Lemma endswith_append (a p : string) : endswith p (a +:+ p) = true.
Proof.
  unfold endswith. rewrite string_length_append.
  assert ((String.length p <=? String.length a + String.length p)%nat = true)
    as -> by (apply Nat.leb_le; lia).
  replace (String.length a + String.length p - String.length p)%nat
    with (String.length a) by lia.
  rewrite (substring_skip _ _ _ _ eq_refl).
  rewrite <- (append_nil_r p) at 2.
  rewrite (substring_whole _ _ _ eq_refl). cbn [andb]. apply String.eqb_refl.
Qed.

Lemma startswith_other_head (a b : ascii) (p s : string) :
  a <> b -> startswith (String a p) (String b s) = false.
Proof.
  intros N. unfold startswith. cbn [String.prefix].
  destruct (ascii_dec a b); [contradiction | reflexivity].
Qed.

Section MoreSearch.

Context `{Library}.

(** X12.  A message that arrives on the tile topic [get_tile_topic] gives
    is handled as tile data, whatever the plan: the topic starts with
    [pp/ip], not with [/pp/], and ends in [/dict]. *)
Theorem tile_topic_message_is_tile_data (c : PointPerfectClient) (la lo : Q)
    (topic : string) (payload : list ascii) :
  get_tile_topic c la lo = Ok topic ->
  on_mqtt_message topic payload c = process_tile_data payload c.
Proof.
  unfold get_tile_topic. destruct (tile_delta (tile_level c)) as [delta|];
    [|discriminate].
  cbn [rbind].
  set (r := str_of_int (tile_level c) +:+ _). intros [= <-].
  unfold on_mqtt_message. unfold bind at 1, get.
  change ("/pp/" +:+ plan c +:+ "/") with (String "/" ("pp/" +:+ plan c +:+ "/")).
  change ("pp/ip/L" +:+ r) with (String "p" ("p/ip/L" +:+ r)).
  rewrite startswith_other_head by discriminate.
  change "/pp/ubx/" with (String "/" "pp/ubx/").
  rewrite startswith_other_head by discriminate.
  change (String "p" ("p/ip/L" +:+ r))
    with (String "p" (String "p" (String "/" (String "i" (String "p" ("/L" +:+ r)))))).
  assert (startswith "pp/ip"
            (String "p" (String "p" (String "/" (String "i" (String "p" ("/L" +:+ r))))))
          = true) as -> by reflexivity.
  change (String "p" (String "p" (String "/" (String "i" (String "p" ("/L" +:+ r))))))
    with ("pp/ip/L" +:+ r).
  assert (endswith "/dict" ("pp/ip/L" +:+ r) = true) as ->.
  { subst r. rewrite <- !string_app_assoc. apply endswith_append. }
  now destruct (process_tile_data payload c) as [[[[] c1] acts]|].
Qed.

Lemma nearest_loop_member rla rlo f (l : list string) : forall mn nn mn1 nn1,
  nearest_loop rla rlo f l mn nn = Ok (mn1, nn1) ->
  forall n, nn1 = Some n -> nn = Some n \/ In n l.
Proof.
  induction l as [|x l IH]; intros mn nn mn1 nn1; cbn [nearest_loop].
  - intros [= <- <-]. auto.
  - destruct (node_coordinates x) as [[nla nlo]|]; [|discriminate].
    cbn [rbind]. destruct (below _ mn); intros E n Hn;
      destruct (IH _ _ _ _ E n Hn) as [G|G]; cbn [In]; auto.
    injection G as <-. auto.
Qed.

(** X13.  When the search returns a node name, it is one of the names it
    was given, and one whose two coordinates convert: the search invents
    no name and never picks one it could not read. *)
Theorem nearest_is_a_given_node (la lo : Q) (nodes : list string) (n : string) :
  nearest la lo nodes = Ok n ->
  In n nodes /\ is_ok (node_coordinates n) = true.
Proof.
  unfold nearest.
  destruct (nearest_loop _ _ _ nodes None None) as [[mn nn]|] eqn:E; [|discriminate].
  cbn [rbind]. destruct nn as [m|]; [|discriminate]. intros [= <-]. split.
  - destruct (nearest_loop_member _ _ _ _ _ _ _ _ E m eq_refl) as [G|G];
      [discriminate | exact G].
  - eapply nearest_loop_parsed; [exact E| |reflexivity]. discriminate.
Qed.


End MoreSearch.

Lemma tile_topic_message_is_tile_data_witness :
  on_mqtt_message (H := sample_library) "pp/ip/L2N4875E01125/dict"
    (list_ascii_of_string sample_json) sample_client
  = process_tile_data (H := sample_library) (list_ascii_of_string sample_json)
      sample_client.
Proof.
  apply (@tile_topic_message_is_tile_data sample_library sample_client
           48.1173 11.5167).
  vm_compute. reflexivity.
Defined.

Lemma nearest_is_a_given_node_witness :
  In "N4807E01131" ["N3920W09660"; "N4807E01131"; "S3387E15121"] /\
  is_ok (node_coordinates "N4807E01131") = true.
Proof.
  apply (@nearest_is_a_given_node sample_library 48 11).
  vm_compute. reflexivity.
Defined.


(** ** The session: further invariants *)

Lemma writes_app (a b : list action) : writes (a ++ b) = writes a ++ writes b.
Proof.
  induction a as [|x a IH]; [reflexivity|].
  destruct x; cbn [app writes]; now rewrite IH.
Qed.

Lemma key_topics_no_tile (topics : list (string * Z)) : forall subs,
  none_active Tile subs ->
  none_active Tile (fold_left (fun m tq => <[fst tq := KeyTopic]> m) topics subs).
Proof.
  induction topics as [|tq topics IH]; intros subs Hs; [exact Hs|].
  cbn [fold_left]. apply IH. intros t E.
  apply lookup_insert_Some in E as [[_ E]|[_ E]]; [discriminate|].
  now apply (Hs t).
Qed.

Lemma none_active_insert (p q : purpose) (t : string) subs :
  p <> q -> none_active p subs -> none_active p (<[t := q]> subs).
Proof.
  intros N Hs t1 E. apply lookup_insert_Some in E as [[_ E]|[_ E]].
  - congruence.
  - now apply (Hs t1).
Qed.

Lemma none_active_empty (p : purpose) : none_active p ∅.
Proof. intros t E. rewrite lookup_empty in E. discriminate. Qed.

Section SessionTheorems.

Context `{Library}.

Lemma select_node_writes (c c1 : PointPerfectClient) (acts : list action) :
  select_node c = Ok (tt, c1, acts) -> writes acts = [].
Proof.
  rewrite select_node_eq. destruct (tile_dict c) as [d|]; [|now intros [= <- <-]].
  destruct (nearest (lat c) (lon c) (nodes d)) as [node|]; [|discriminate].
  destruct (if localized c then Ok node else region_lookup REGION_MAPPING node)
    as [name|]; [|discriminate].
  destruct (negb (String.eqb (mqtt_server c) (endpoint d)));
    intros [= <- <-]; [reflexivity|].
  now destruct (truthy (spartn_topic c)).
Qed.

Lemma process_position_writes (la lo : Q) (c c1 : PointPerfectClient)
    (acts : list action) :
  process_position la lo c = Ok (tt, c1, acts) -> writes acts = [].
Proof.
  rewrite process_position_eq. destruct (localized c).
  - destruct (must_recompute la lo c); [|now intros [= <- <-]].
    destruct (get_tile_topic c la lo) as [new|]; [|discriminate].
    destruct (negb (String.eqb new (tile_topic c))).
    + intros [= <- <-]. now destruct (truthy (tile_topic c)).
    + apply select_node_writes.
  - destruct (negb (truthy (spartn_topic c))); [|now intros [= <- <-]].
    apply select_node_writes.
Qed.

Lemma handle_nmea_gga_writes (sentence : string) (c c1 : PointPerfectClient)
    (acts : list action) :
  handle_nmea_gga sentence c = Ok (tt, c1, acts) -> writes acts = [].
Proof.
  intros E. apply handle_nmea_gga_parts in E
    as [quality [la [lo [c0 [_ [_ E]]]]]].
  revert E. rewrite on_quality_eq.
  destruct ((quality =? 0) || (quality =? 6))%Z.
  - destruct (truthy_opt (assist_now_topic c0)); now intros [= <- <-].
  - destruct (process_position la lo (assist_cleared c0))
      as [[[[] c2] acts2]|] eqn:Ep; [|discriminate].
    intros [= <- <-]. rewrite writes_app.
    rewrite (process_position_writes _ _ _ _ _ Ep).
    unfold assist_unsubscribed.
    destruct (assist_now_topic c0) as [t|]; [|reflexivity].
    now destruct (truthy t && negb (assist_now c0)).
Qed.

(** X15.  All along a session the number of fixes counted since the
    position was last recorded is not negative and, when the configured
    maximum is not negative, never passes it: the fix that would pass it
    records the position and resets the count. *)
Theorem epoch_count_stays_bounded (evs : list event) (s s1 : session) :
  epoch_ok (client s) -> run evs s = Ok s1 -> epoch_ok (client s1).
Proof.
  apply run_keeps_tracking; try (intros v c P; exact P).
  - intros quality c c0 acts P E.
    apply update_stats_shape in E as [[_ ->]|[st [st1 [_ [_ ->]]]]]; exact P.
  - apply process_position_keeps_epoch.
Qed.

(** X16.  All along a session the tile topic the client records is empty
    or, in localized mode, the topic of the tile that holds the position it
    records: the two are only ever changed together. *)
Theorem tile_topic_tracks_position (evs : list event) (s s1 : session) :
  tile_ok (client s) -> run evs s = Ok s1 -> tile_ok (client s1).
Proof.
  apply run_keeps_tracking; try (intros v c P; exact P).
  - intros quality c c0 acts P E.
    apply update_stats_shape in E as [[_ ->]|[st [st1 [_ [_ ->]]]]]; exact P.
  - apply process_position_keeps_tile.
Qed.

(** X17.  All along a session at most one subscription to an
    initialization topic is active, the recorded one, and the recorded
    topic is absent, [/pp/ubx/mga] or [/pp/ubx/mga/updates]. *)
Theorem one_assist_subscription (evs : list event) (s s1 : session) :
  assist_ok (client s) (active s) -> run evs s = Ok s1 ->
  assist_ok (client s1) (active s1) /\ at_most_one AssistNow (active s1).
Proof.
  intros Hc Hr. pose proof (run_keeps_assist evs s s1 Hc Hr) as G.
  split; [exact G|]. intros t1 t2 E1 E2.
  apply (proj2 G) in E1. apply (proj2 G) in E2. congruence.
Qed.

(** X18.  A completed disconnect followed by a successful connect always
    returns: a pending server has become the current one, the client is
    connected and the correction topic it records is subscribed again,
    but no tile subscription is active although the recorded tile topic
    is unchanged: the connect callback does not subscribe to it. *)
Theorem reconnect_restores_all_but_the_tile (rc : Z) (s : session) :
  exists s1,
    run [Disconnected rc; ConnAck 0] s = Ok s1 /\
    connected (client s1) = true /\
    (forall srv, new_server (client s) = Some srv -> truthy srv = true ->
       mqtt_server (client s1) = srv /\ new_server (client s1) = None) /\
    tile_topic (client s1) = tile_topic (client s) /\
    none_active Tile (active s1) /\
    (truthy (spartn_topic (client s)) = true ->
     assist_now_topic (client s) <> Some (spartn_topic (client s)) ->
     active s1 !! spartn_topic (client s) = Some Correction).
Proof.
  destruct s as [c fr act]. cbn [client].
  assert (D : exists c0 acts0,
            on_mqtt_disconnect rc c = Ok (tt, c0, acts0) /\
            deliver_all acts0 ∅ = ∅ /\
            tile_topic c0 = tile_topic c /\ spartn_topic c0 = spartn_topic c /\
            assist_now_topic c0 = assist_now_topic c /\
            (forall srv, new_server c = Some srv -> truthy srv = true ->
               mqtt_server c0 = srv /\ new_server c0 = None)).
  { unfold on_mqtt_disconnect, bind, get, modify, emit, ret. cbn.
    destruct (new_server c) as [srv|] eqn:En; [destruct (truthy srv) eqn:Et|];
      eexists; eexists; (split; [reflexivity|]); cbn;
      (split; [reflexivity|]); (split; [reflexivity|]); (split; [reflexivity|]);
      (split; [reflexivity|]); intros srv0 E0 Et0;
      try discriminate; injection E0 as <-; [auto | congruence]. }
  destruct D as [c0 [acts0 [Ed [Da [Tt [Ts [Ta Hsrv]]]]]]].
  cbn [run step client frame active]. rewrite Ed, Da.
  set (ks := match mqtt_topics c0 with
             | [] => []
             | _ :: _ => [SubscribeList (mqtt_topics c0)]
             end).
  set (ss := if truthy (spartn_topic c)
             then [Subscribe Correction (spartn_topic c) 0] else []).
  set (qs := match assist_now_topic c with
             | Some topic =>
                 if truthy topic
                 then [Subscribe AssistNow topic
                         (if endswith "/updates" topic then 0%Z else 1%Z)]
                 else []
             | None => []
             end).
  assert (Ec : on_mqtt_connect 0 c0
               = Ok (tt, set_connected true c0, ks ++ ss ++ qs)).
  { subst ks ss qs. unfold on_mqtt_connect. change (0 =? 0)%Z with true.
    unfold bind, get, modify, emit, ret.
    cbn [mqtt_topics spartn_topic assist_now_topic set_connected].
    rewrite Ts, Ta.
    destruct (mqtt_topics c0); destruct (truthy (spartn_topic c));
      destruct (assist_now_topic c) as [a|]; try destruct (truthy a);
      reflexivity. }
  cbn [client frame active]. rewrite Ec. eexists. split; [reflexivity|].
  cbn [client active connected set_connected mqtt_server new_server tile_topic].
  split; [reflexivity|]. split; [exact Hsrv|]. split; [exact Tt|].
  rewrite !deliver_all_app.
  set (keys := deliver_all ks ∅).
  assert (Hk : none_active Tile keys).
  { subst keys ks. destruct (mqtt_topics c0) as [|tq topics].
    - apply none_active_empty.
    - cbn [deliver_all fold_left deliver].
      apply (key_topics_no_tile (tq :: topics)), none_active_empty. }
  split.
  - subst ss qs.
    destruct (truthy (spartn_topic c));
      destruct (assist_now_topic c) as [a|]; try destruct (truthy a);
      cbn [deliver_all fold_left deliver];
      repeat (apply none_active_insert; [discriminate|]); exact Hk.
  - intros Hs Hn. subst ss qs. rewrite Hs.
    destruct (assist_now_topic c) as [a|]; try destruct (truthy a);
      cbn [deliver_all fold_left deliver];
      try (apply lookup_insert_Some; right; split; [congruence|]);
      apply lookup_insert_Some; left; split; reflexivity.
Qed.

(** X19.  The message callback hands the payload to the receiver once and
    unchanged when the topic is a correction, key or initialization topic
    or a localized topic other than a tile dictionary; for every other
    topic, a tile dictionary included, nothing is written. *)
Theorem payload_is_forwarded_once (topic : string) (payload : list ascii)
    (c c1 : PointPerfectClient) (acts : list action) :
  on_mqtt_message topic payload c = Ok (tt, c1, acts) ->
  writes acts = if forwarded c topic then [payload] else [].
Proof.
  unfold on_mqtt_message, forwarded. unfold bind at 1, get.
  destruct (startswith _ topic); cbn [orb].
  { unfold emit. now intros [= <- <-]. }
  destruct (startswith "/pp/ubx/" topic); cbn [orb].
  { unfold bind, emit, modify, ret.
    destruct (String.eqb topic "/pp/ubx/mga"); now intros [= <- <-]. }
  destruct (startswith "pp/ip" topic); cbn [andb].
  { destruct (endswith "/dict" topic); cbn [negb].
    - unfold process_tile_data.
      destruct (json_loads payload) as [d|]; [|discriminate].
      unfold bind, modify.
      destruct (select_node (set_tile_dict d c)) as [[[[] c3] acts3]|] eqn:Es;
        [|discriminate].
      intros [= <- <-]. cbn [app]. eapply select_node_writes; eauto.
    - unfold emit. now intros [= <- <-]. }
  unfold ret. now intros [= <- <-].
Qed.

(** X20.  Whatever the receiver sends, the read loop's call of the framer
    writes nothing back to the receiver: a fix report only ever changes
    subscriptions and the connection. *)
Theorem fixes_are_never_written_back (buffer buffer1 : option (list ascii))
    (data : list ascii) (c c1 : PointPerfectClient) (acts : list action) :
  feed buffer data c = Ok (buffer1, c1, acts) -> writes acts = [].
Proof.
  unfold feed.
  destruct (NmeaParser.parse handlers buffer data (c, []))
    as [[[b2 st2] calls2]|] eqn:Ep; [|discriminate].
  intros [= <- <- <-].
  eapply (parse_keeps (fun st => writes (snd st) = [])); [| |exact Ep];
    [|reflexivity].
  unfold handlers. constructor; [|constructor].
  cbn [snd]. intros text [c2 log] st1 Hp. unfold as_callback. cbn [fst snd] in *.
  destruct (handle_nmea_gga text c2) as [[[[] c3] acts3]|] eqn:Eh; [|discriminate].
  intros [= <-]. cbn [snd]. rewrite writes_app, Hp.
  eapply handle_nmea_gga_writes; eauto.
Qed.

End SessionTheorems.

Lemma epoch_count_stays_bounded_witness :
  exists s1,
    run (H := sample_library) counting_events (fresh counting_client None) = Ok s1 /\
    epoch_ok (client s1) /\ epoch_count (client s1) = 0%Z.
Proof.
  destruct (run (H := sample_library) counting_events (fresh counting_client None))
    as [s1|] eqn:E.
  - exists s1. split; [reflexivity|]. split.
    + apply (@epoch_count_stays_bounded sample_library counting_events
               (fresh counting_client None) s1); [|exact E].
      split; [vm_compute; discriminate|].
      intros e [= <-] _. vm_compute. discriminate.
    + vm_compute in E. injection E as <-. reflexivity.
  - vm_compute in E. discriminate.
Defined.

Lemma tile_topic_tracks_position_witness :
  exists s1,
    run (H := sample_library) sample_events sample_start = Ok s1 /\
    tile_ok (client s1) /\ tile_topic (client s1) = "pp/ip/L2N4875E01125/dict".
Proof.
  destruct (run (H := sample_library) sample_events sample_start) as [s1|] eqn:E.
  - exists s1. split; [reflexivity|]. split.
    + apply (@tile_topic_tracks_position sample_library sample_events
               sample_start s1); [|exact E].
      left. reflexivity.
    + vm_compute in E. injection E as <-. reflexivity.
  - vm_compute in E. discriminate.
Defined.

Lemma one_assist_subscription_witness :
  exists s1,
    run (H := sample_library)
      [ConnAck 0; Message "/pp/ubx/mga" ["001"%char]; Received sample_fix]
      (fresh (fst (init (H := sample_library) "pp.services.u-blox.com" 8883 true 2
                     false None 50000 None None true)) None) = Ok s1 /\
    assist_ok (client s1) (active s1) /\ at_most_one AssistNow (active s1).
Proof.
  destruct (run (H := sample_library)
      [ConnAck 0; Message "/pp/ubx/mga" ["001"%char]; Received sample_fix]
      (fresh (fst (init (H := sample_library) "pp.services.u-blox.com" 8883 true 2
                     false None 50000 None None true)) None)) as [s1|] eqn:E.
  - exists s1. split; [reflexivity|].
    refine (@one_assist_subscription sample_library _ _ s1 _ E).
    apply assist_ok_empty. right. left. reflexivity.
  - vm_compute in E. discriminate.
Defined.

Lemma payload_is_forwarded_once_witness :
  writes [GnssWrite ["001"%char; "002"%char]]
  = if forwarded sample_client "pp/ip/N4807E01131"
    then [["001"%char; "002"%char]] else [].
Proof.
  apply (@payload_is_forwarded_once sample_library "pp/ip/N4807E01131"
           ["001"%char; "002"%char] sample_client sample_client).
  vm_compute. reflexivity.
Defined.

Lemma fixes_are_never_written_back_witness :
  writes [Subscribe Tile "pp/ip/L2N4875E01125/dict" 1] = [].
Proof.
  apply (@fixes_are_never_written_back sample_library None None sample_fix
           sample_client
           (set_tile_topic "pp/ip/L2N4875E01125/dict"
              (recorded_position (H := sample_library)
                 (2887038 # 60000) (691000 # 60000) sample_client))).
  vm_compute. reflexivity.
Defined.

(** ** The receiver and the read loop: properties *)

Lemma list_ascii_of_string_append (a b : string) :
  list_ascii_of_string (a +:+ b) = list_ascii_of_string a ++ list_ascii_of_string b.
Proof.
  induction a as [|c a IH]; [reflexivity|].
  rewrite append_cons. cbn [list_ascii_of_string app]. now rewrite IH.
Qed.

Lemma list_ascii_of_string_length (s : string) :
  length (list_ascii_of_string s) = String.length s.
Proof. induction s as [|c s IH]; [reflexivity|]. cbn. now rewrite IH. Qed.

Lemma encode_utf8_append (a b : string) :
  RosPointPerfectPublisher.encode_utf8 (a +:+ b)
  = RosPointPerfectPublisher.encode_utf8 a ++ RosPointPerfectPublisher.encode_utf8 b.
Proof.
  unfold RosPointPerfectPublisher.encode_utf8.
  now rewrite list_ascii_of_string_append, flat_map_app.
Qed.

Lemma encode_utf8_ascii (s : string) :
  forallb (fun c => (ord c <? 128)%Z) (list_ascii_of_string s) = true ->
  RosPointPerfectPublisher.encode_utf8 s = list_ascii_of_string s.
Proof.
  unfold RosPointPerfectPublisher.encode_utf8.
  induction (list_ascii_of_string s) as [|c cs IH]; [reflexivity|].
  cbn [forallb]. intros Hc. apply andb_prop in Hc as [H1 H2].
  change (flat_map RosPointPerfectPublisher.encode_char (c :: cs))
    with (RosPointPerfectPublisher.encode_char c
          ++ flat_map RosPointPerfectPublisher.encode_char cs).
  unfold RosPointPerfectPublisher.encode_char at 1. rewrite H1. cbn [app].
  now rewrite IH.
Qed.






Section ReadLoopTheorems.

Context `{Library}.

(** X21.  A sentence of ASCII characters that fits the read buffer with
    its line end is parsed by the iteration that follows its publication,
    whole and exactly once: the iteration feeds the framer the sentence, a
    carriage return and a line feed, whatever was waiting before is
    replaced, and the next iteration finds nothing to read. *)
Theorem published_sentence_is_parsed_once (message : gmap string string)
    (sentence : string) (l : reader) :
  message !! "sentence" = Some sentence ->
  forallb (fun c => (ord c <? 128)%Z) (list_ascii_of_string sentence) = true ->
  (String.length sentence + 2 <= length (read_buffer l))%nat ->
  let data := list_ascii_of_string sentence ++ [CR; LF] in
  exists p1,
    RosPointPerfectPublisher.on_nmea_message message (gnss l) = Ok p1 /\
    loop_body (set_gnss p1 l)
    = match step (Received data) (running l) with
      | Raise e => Raise e
      | Ok s1 =>
          Ok {| gnss := {| RosPointPerfectPublisher.nmea_buffer := None;
                           RosPointPerfectPublisher.talker :=
                             RosPointPerfectPublisher.talker (gnss l) |};
                read_buffer := data ++ skipn (length data) (read_buffer l);
                ubxfile := match ubxfile l with
                           | Some written => Some (written ++ data)
                           | None => None
                           end;
                running := s1 |}
      end /\
    forall l2, loop_body (set_gnss p1 l) = Ok l2 -> loop_body l2 = Ok l2.
Proof.
  intros Hm Ha Hl data.
  unfold RosPointPerfectPublisher.on_nmea_message. rewrite Hm.
  eexists. split; [reflexivity|].
  assert (Ed : RosPointPerfectPublisher.encode_utf8
                 (sentence +:+ String "013" (String "010" EmptyString)) = data).
  { rewrite encode_utf8_append, (encode_utf8_ascii _ Ha). reflexivity. }
  assert (Ld : length data = (String.length sentence + 2)%nat).
  { subst data. rewrite length_app, list_ascii_of_string_length. reflexivity. }
  assert (Eb : loop_body (set_gnss
                 {| RosPointPerfectPublisher.nmea_buffer :=
                      Some (RosPointPerfectPublisher.encode_utf8
                              (sentence +:+ String "013" (String "010" EmptyString)));
                    RosPointPerfectPublisher.talker :=
                      RosPointPerfectPublisher.talker (gnss l) |} l)
          = match step (Received data) (running l) with
            | Raise e => Raise e
            | Ok s1 =>
                Ok {| gnss := {| RosPointPerfectPublisher.nmea_buffer := None;
                                 RosPointPerfectPublisher.talker :=
                                   RosPointPerfectPublisher.talker (gnss l) |};
                      read_buffer := data ++ skipn (length data) (read_buffer l);
                      ubxfile := match ubxfile l with
                                 | Some written => Some (written ++ data)
                                 | None => None
                                 end;
                      running := s1 |}
            end).
  { rewrite Ed. unfold loop_body, RosPointPerfectPublisher.readinto.
    cbn [set_gnss gnss read_buffer ubxfile running
         RosPointPerfectPublisher.nmea_buffer RosPointPerfectPublisher.talker].
    replace (Nat.min (length (read_buffer l)) (length data)) with (length data)
      by lia.
    assert ((length data =? 0)%nat = false) as -> by (apply Nat.eqb_neq; lia).
    rewrite firstn_all.
    replace (firstn (length data) (data ++ skipn (length data) (read_buffer l)))
      with data.
    2:{ rewrite firstn_app, firstn_all, Nat.sub_diag. cbn [firstn].
        now rewrite app_nil_r. }
    reflexivity. }
  split; [exact Eb|].
  intros l2. rewrite Eb.
  destruct (step (Received data) (running l)) as [s1|]; [|discriminate].
  intros [= <-]. reflexivity.
Qed.


End ReadLoopTheorems.

Lemma published_sentence_is_parsed_once_witness :
  exists p1,
    RosPointPerfectPublisher.on_nmea_message (nmea_message sample_sentence)
      (gnss sample_reader) = Ok p1 /\
    loop_body (H := sample_library) (set_gnss p1 sample_reader)
    = match step (H := sample_library)
              (Received (list_ascii_of_string sample_sentence ++ [CR; LF]))
              (running sample_reader) with
      | Raise e => Raise e
      | Ok s1 =>
          Ok {| gnss := {| RosPointPerfectPublisher.nmea_buffer := None;
                           RosPointPerfectPublisher.talker :=
                             RosPointPerfectPublisher.talker (gnss sample_reader) |};
                read_buffer :=
                  (list_ascii_of_string sample_sentence ++ [CR; LF])
                  ++ skipn (length (list_ascii_of_string sample_sentence ++ [CR; LF]))
                       (read_buffer sample_reader);
                ubxfile := match ubxfile sample_reader with
                           | Some written =>
                               Some (written
                                     ++ list_ascii_of_string sample_sentence
                                     ++ [CR; LF])
                           | None => None
                           end;
                running := s1 |}
      end /\
    forall l2,
      loop_body (H := sample_library) (set_gnss p1 sample_reader) = Ok l2 ->
      loop_body (H := sample_library) l2 = Ok l2.
Proof.
  apply (@published_sentence_is_parsed_once sample_library
           (nmea_message sample_sentence) sample_sentence sample_reader).
  - reflexivity.
  - reflexivity.
  - vm_compute. lia.
Defined.


(** ** The server URI: properties *)

Lemma after_prefix_append (p r : string) : after_prefix p (p +:+ r) = Some r.
Proof.
  induction p as [|a p IH]; [now destruct r|].
  rewrite append_cons. cbn [after_prefix]. now rewrite Ascii.eqb_refl.
Qed.

Lemma after_prefix_split (p s r : string) :
  after_prefix p s = Some r -> s = p +:+ r.
Proof.
  revert s. induction p as [|a p IH]; intros s.
  - cbn. now intros [= <-].
  - destruct s as [|b s]; cbn [after_prefix]; [discriminate|].
    destruct (Ascii.eqb a b) eqn:E; [|discriminate].
    apply Ascii.eqb_eq in E as <-. intros Hr. rewrite append_cons.
    now rewrite <- (IH s Hr).
Qed.

Lemma take_digits_all (s : string) : all_digits s = true -> take_digits s = s.
Proof.
  unfold all_digits. induction s as [|c s IH]; [reflexivity|].
  cbn [list_ascii_of_string forallb take_digits]. intros Hc.
  apply andb_prop in Hc as [H1 H2]. now rewrite H1, IH.
Qed.

Lemma take_digits_split (s : string) :
  exists tail, s = take_digits s +:+ tail /\ starts_with_digit tail = false /\
               all_digits (take_digits s) = true.
Proof.
  induction s as [|c s [tail [E [T D]]]].
  - exists EmptyString. auto.
  - cbn [take_digits]. destruct (in_range "0" "9" c) eqn:Ec.
    + exists tail. rewrite append_cons, <- E. split; [reflexivity|].
      split; [exact T|]. unfold all_digits in *.
      cbn [list_ascii_of_string forallb]. now rewrite Ec, D.
    + exists (String c s). split; [reflexivity|]. split; [exact Ec|reflexivity].
Qed.

Lemma digit_is_plain (c : ascii) :
  in_range "0" "9" c = true -> byte_eqb c "010" = false /\ byte_eqb c ":" = false.
Proof.
  unfold in_range, byte_eqb. intros Hc. apply andb_prop in Hc as [H1 H2].
  apply Z.leb_le in H1, H2. change (ord "0") with 48%Z in H1.
  change (ord "9") with 57%Z in H2. change (ord "010") with 10%Z.
  change (ord ":") with 58%Z. split; apply Z.eqb_neq; lia.
Qed.

Lemma last_port_digits (s : string) : forall seen best,
  all_digits s = true -> last_port seen s best = best.
Proof.
  unfold all_digits. induction s as [|c s IH]; intros seen best; [reflexivity|].
  cbn [list_ascii_of_string forallb last_port]. intros Hc.
  apply andb_prop in Hc as [H1 H2].
  destruct (digit_is_plain c H1) as [-> ->]. cbn [andb]. now apply IH.
Qed.

Lemma string_append_empty (a b : string) :
  a +:+ b = EmptyString -> a = EmptyString /\ b = EmptyString.
Proof. destruct a; [now cbn|]. rewrite append_cons. discriminate. Qed.

Lemma last_port_final (port host : string) : forall seen best,
  one_line host = true -> seen +:+ host <> EmptyString ->
  port <> EmptyString -> all_digits port = true ->
  last_port seen (host +:+ ":" +:+ port) best = Some (seen +:+ host, port).
Proof.
  unfold one_line. induction host as [|c host IH]; intros seen best Hl Hn Hp Hd.
  - rewrite append_nil_r in *. change (EmptyString +:+ ":" +:+ port)
      with (String ":" port).
    cbn [last_port]. change (byte_eqb ":" "010") with false.
    change (byte_eqb ":" ":") with true. cbn [andb].
    assert (String.eqb seen EmptyString = false) as ->
      by now apply String.eqb_neq.
    cbn [negb andb].
    assert (starts_with_digit port = true) as ->.
    { destruct port as [|d port]; [contradiction|].
      pose proof Hd as Hd1. unfold all_digits in Hd1.
      cbn [list_ascii_of_string forallb] in Hd1.
      apply andb_prop in Hd1 as [Hd1 _]. exact Hd1. }
    rewrite (take_digits_all _ Hd). now apply last_port_digits.
  - cbn [list_ascii_of_string forallb] in Hl. apply andb_prop in Hl as [H1 H2].
    apply negb_true_iff in H1. rewrite append_cons. cbn [last_port]. rewrite H1.
    rewrite IH; try assumption.
    + now rewrite string_app_assoc.
    + rewrite string_app_assoc. cbn. intros E.
      apply string_append_empty in E as [_ E]. discriminate.
Qed.

Lemma last_port_sound (s : string) : forall seen best server port,
  last_port seen s best = Some (server, port) ->
  best = Some (server, port) \/
  exists pre tail,
    s = pre +:+ ":" +:+ port +:+ tail /\ server = seen +:+ pre /\
    server <> EmptyString /\ one_line pre = true /\
    starts_with_digit tail = false /\
    port <> EmptyString /\ all_digits port = true.
Proof.
  induction s as [|c s IH]; intros seen best server port; cbn [last_port].
  - auto.
  - destruct (byte_eqb c "010") eqn:El; [auto|].
    intros E. apply IH in E as [E|[pre [tail [Es [Ev [Nv [Hl [Ht [Np Hd]]]]]]]]].
    + destruct (byte_eqb c ":" && negb (String.eqb seen EmptyString)
                && starts_with_digit s) eqn:Ec; [|auto].
      right. injection E as <- <-.
      apply andb_prop in Ec as [Ec Hs]. apply andb_prop in Ec as [Ec Hn].
      apply byte_eqb_eq in Ec as ->. apply negb_true_iff, String.eqb_neq in Hn.
      destruct (take_digits_split s) as [tail [Es [Ht Hd]]].
      exists EmptyString, tail. rewrite append_nil_r.
      split; [cbn; now rewrite <- Es|].
      split; [reflexivity|]. split; [exact Hn|]. split; [reflexivity|].
      split; [exact Ht|]. split; [|exact Hd].
      destruct s as [|d s]; [discriminate|]. cbn in Hs. cbn [take_digits].
      rewrite Hs. discriminate.
    + right. exists (String c pre), tail. rewrite append_cons, <- Es.
      split; [reflexivity|]. rewrite string_app_assoc in Ev.
      split; [exact Ev|]. split; [exact Nv|].
      split; [|auto]. unfold one_line in *.
      cbn [list_ascii_of_string forallb]. now rewrite El, Hl.
Qed.

(** X23.  A URI made of the scheme [tcp] or [ssl], a server name on one
    line, a colon and a port number is taken apart into just these parts,
    whatever colons the server name holds; the server is accepted exactly
    when the scheme is [ssl] and the port is [8883]. *)
Theorem server_uri_round_trip (scheme host port : string) :
  scheme = "tcp" \/ scheme = "ssl" ->
  host <> EmptyString -> one_line host = true ->
  port <> EmptyString -> all_digits port = true ->
  match_server_uri (scheme +:+ "://" +:+ host +:+ ":" +:+ port)
  = Some (scheme, host, port) /\
  server_of_uri (scheme +:+ "://" +:+ host +:+ ":" +:+ port)
  = if String.eqb scheme "ssl" && String.eqb port "8883"
    then Server host else Refused.
Proof.
  intros Hs Hn Hl Hp Hd.
  assert (M : match_server_uri (scheme +:+ "://" +:+ host +:+ ":" +:+ port)
              = Some (scheme, host, port)).
  { unfold match_server_uri. destruct Hs as [-> | ->].
    - change ("tcp" +:+ "://" +:+ host +:+ ":" +:+ port)
        with ("tcp://" +:+ host +:+ ":" +:+ port).
      rewrite after_prefix_append.
      now rewrite (last_port_final port host EmptyString None Hl Hn Hp Hd).
    - change ("ssl" +:+ "://" +:+ host +:+ ":" +:+ port)
        with ("ssl://" +:+ host +:+ ":" +:+ port).
      assert (after_prefix "tcp://" ("ssl://" +:+ host +:+ ":" +:+ port) = None)
        as -> by reflexivity.
      rewrite after_prefix_append.
      now rewrite (last_port_final port host EmptyString None Hl Hn Hp Hd). }
  split; [exact M|]. unfold server_of_uri. rewrite M.
  destruct (String.eqb scheme "ssl"); [|reflexivity]. cbn [negb andb].
  now destruct (String.eqb port "8883").
Qed.

(** X24.  The server URI is accepted only when it is [ssl://], a server
    name, [:8883] and a rest that does not go on with a digit; the server
    name taken is not empty and holds no line feed. *)
Theorem accepted_uri_is_ssl_8883 (server_uri server : string) :
  server_of_uri server_uri = Server server ->
  exists tail,
    server_uri = "ssl://" +:+ server +:+ ":8883" +:+ tail /\
    server <> EmptyString /\ one_line server = true /\
    starts_with_digit tail = false.
Proof.
  unfold server_of_uri.
  destruct (match_server_uri server_uri) as [[[scheme host] port]|] eqn:M;
    [|discriminate].
  destruct (String.eqb scheme "ssl") eqn:Es; [|discriminate]. cbn [negb].
  destruct (String.eqb port "8883") eqn:Ep; [|discriminate]. cbn [negb].
  intros [= <-]. apply String.eqb_eq in Es, Ep. subst scheme port.
  revert M. unfold match_server_uri.
  destruct (after_prefix "tcp://" server_uri) as [rest|].
  { destruct (last_port EmptyString rest None) as [[h p]|]; discriminate. }
  destruct (after_prefix "ssl://" server_uri) as [rest|] eqn:Ea; [|discriminate].
  destruct (last_port EmptyString rest None) as [[h p]|] eqn:El; [|discriminate].
  intros [= -> ->]. apply after_prefix_split in Ea.
  apply last_port_sound in El as [El|[pre [tail [Er [Ev [Nv [Hl [Ht _]]]]]]]];
    [discriminate|].
  change (EmptyString +:+ pre) with pre in Ev. subst pre rest.
  exists tail. split; [exact Ea | auto].
Qed.

Lemma server_uri_round_trip_witness :
  match_server_uri ("ssl" +:+ "://" +:+ "pp.services.u-blox.com" +:+ ":" +:+ "8883")
  = Some ("ssl", "pp.services.u-blox.com", "8883") /\
  server_of_uri ("ssl" +:+ "://" +:+ "pp.services.u-blox.com" +:+ ":" +:+ "8883")
  = if String.eqb "ssl" "ssl" && String.eqb "8883" "8883"
    then Server "pp.services.u-blox.com" else Refused.
Proof.
  apply server_uri_round_trip;
    first [ right; reflexivity | discriminate | reflexivity ].
Defined.

Lemma accepted_uri_is_ssl_8883_witness :
  exists tail,
    "ssl://a:1:8883/x" = "ssl://" +:+ "a:1" +:+ ":8883" +:+ tail /\
    "a:1" <> EmptyString /\ one_line "a:1" = true /\
    starts_with_digit tail = false.
Proof.
  apply (accepted_uri_is_ssl_8883 "ssl://a:1:8883/x" "a:1"). reflexivity.
Defined.
